(** * Address book (Task_1.py / Task_2.py): fields, records, directory

    A shallow embedding of the data model shared by the two scripts
    (classes [Field], [Name], [Phone], [Birthday], [Record], [AddressBook])
    together with the parts of the Python runtime they rely on: the
    backtracking matcher of [re], [datetime.strptime] for the format
    ["%d.%m.%Y"], and the proleptic Gregorian arithmetic of [datetime]. *)

From Stdlib Require Import String Ascii ZArith NArith List Bool Lia.
Import ListNotations.

Set Implicit Arguments.

(** ** Python strings

    A [str] is a sequence of Unicode code points. *)

Definition codepoint := N.
Definition str := list codepoint.

(** ASCII literals, for readable examples. *)
Definition cps (s : string) : str :=
  List.map N_of_ascii (list_ascii_of_string s).

Definition str_eqb (a b : str) : bool :=
  if list_eq_dec N.eq_dec a b then true else false.

(** ** Unicode decimal digits

    In a [str] pattern, [\d] matches every character of general category
    Nd, and [int] converts each such character to its digit value.  The
    category is a union of runs of ten consecutive code points, digit zero
    first; [decimal_zeros] lists the first code point of every run
    (Unicode 14.0, the tables of CPython 3.11). *)

Module Unicode.

Definition decimal_zeros : list N :=
  [48; 1632; 1776; 1984; 2406; 2534; 2662; 2790; 2918; 3046; 3174; 3302;
   3430; 3558; 3664; 3792; 3872; 4160; 4240; 6112; 6160; 6470; 6608; 6784;
   6800; 6992; 7088; 7232; 7248; 42528; 43216; 43264; 43472; 43504; 43600;
   44016; 65296; 66720; 68912; 69734; 69872; 69942; 70096; 70384; 70736;
   70864; 71248; 71360; 71472; 71904; 72016; 72784; 73040; 73120; 92768;
   92864; 93008; 120782; 120792; 120802; 120812; 120822; 123200; 123632;
   125264; 130032]%N.

Fixpoint digit_in (zeros : list N) (c : codepoint) : option Z :=
  match zeros with
  | [] => None
  | z :: zs =>
      if ((z <=? c) && (c <? z + 10))%N then Some (Z.of_N (c - z))
      else digit_in zs c
  end.

Definition digit_value (c : codepoint) : option Z := digit_in decimal_zeros c.

Definition is_decimal (c : codepoint) : bool :=
  match digit_value c with Some _ => true | None => false end.

Definition is_ascii_digit (c : codepoint) : bool :=
  ((48 <=? c) && (c <=? 57))%N.

End Unicode.

(** ** Exceptions *)

Inductive message :=
| InvalidPhoneFormat   (* "Invalid phone number format. It should be 10 digits." *)
| InvalidDateFormat    (* "Invalid date format. Use DD.MM.YYYY" *)
| DoesNotMatchFormat   (* strptime: "time data ... does not match format ..." *)
| UnconvertedData      (* strptime: "unconverted data remains: ..." *)
| InvalidLiteral       (* int: "invalid literal for int() with base 10" *)
| FieldOutOfRange      (* datetime: "year/month/day ... must be in ..." *)
| NotInList.           (* list.remove(x): x not in list *)

Inductive exn :=
| ValueError (m : message)
| OverflowError.

Inductive result (A : Type) :=
| Ok (a : A)
| Raise (e : exn).

Arguments Ok {A} a.
Arguments Raise {A} e.

Definition rbind {A B} (r : result A) (f : A -> result B) : result B :=
  match r with
  | Ok a => f a
  | Raise e => Raise e
  end.

Declare Scope result_scope.
Delimit Scope result_scope with res.
Notation "x <- c ;; k" := (rbind c (fun x => k))
  (at level 61, c at next level, right associativity) : result_scope.

(** ** The matcher of [re]

    Patterns are matched by backtracking: alternatives are tried from left
    to right, and the first way of matching the whole pattern wins.  The
    matcher is written with a continuation for "the rest of the pattern";
    [None] from the continuation makes the matcher try the next
    alternative. *)

Module Re.

Inductive regex :=
| Chr (c : codepoint)              (* a literal character *)
| Rng (lo hi : codepoint)          (* [lo-hi] *)
| Dig                              (* \d *)
| Cat (r1 r2 : regex)              (* r1 r2 *)
| Alt (r1 r2 : regex)              (* r1|r2 *)
| Rep (n : nat) (r : regex)        (* r{n} *)
| Grp (name : string) (r : regex). (* a named group *)

Definition groups := list (string * str).

Fixpoint groupdict (g : groups) (name : string) : option str :=
  match g with
  | [] => None
  | (n, v) :: g' => if String.eqb n name then Some v else groupdict g' name
  end.

Section Matcher.
Variable R : Type.

Fixpoint run (r : regex) (s : str) (g : groups)
         (k : str -> groups -> option R) {struct r} : option R :=
  match r with
  | Chr c =>
      match s with
      | x :: s' => if (x =? c)%N then k s' g else None
      | [] => None
      end
  | Rng lo hi =>
      match s with
      | x :: s' => if ((lo <=? x) && (x <=? hi))%N then k s' g else None
      | [] => None
      end
  | Dig =>
      match s with
      | x :: s' => if Unicode.is_decimal x then k s' g else None
      | [] => None
      end
  | Cat r1 r2 => run r1 s g (fun s' g' => run r2 s' g' k)
  | Alt r1 r2 =>
      match run r1 s g k with
      | Some x => Some x
      | None => run r2 s g k
      end
  | Rep n r1 =>
      (fix rep (n : nat) (s : str) (g : groups) : option R :=
         match n with
         | O => k s g
         | S n' => run r1 s g (fun s' g' => rep n' s' g')
         end) n s g
  | Grp name r1 =>
      run r1 s g
          (fun s' g' =>
             k s' ((name, firstn (length s - length s') s) :: g'))
  end.
End Matcher.

(** [re.match]: the first match of the pattern at the start of the string;
    the result carries what is left of the string after the match. *)
Definition rmatch (r : regex) (s : str) : option (str * groups) :=
  run r s [] (fun s' g => Some (s', g)).

(** [re.fullmatch]: the match has to end where the string ends. *)
Definition fullmatch (r : regex) (s : str) : option groups :=
  run r s [] (fun s' g => match s' with [] => Some g | _ => None end).

End Re.

(** ** Fields *)

Record Field (A : Type) := mkField { value : A }.

Definition Name := Field str.
Definition Phone := Field str.

(** [r"\d{10}"] *)
Definition phone_pattern : Re.regex := Re.Rep 10 Re.Dig.

Definition Phone_validate (v : str) : bool :=
  match Re.fullmatch phone_pattern v with
  | Some _ => true
  | None => false
  end.

Definition Phone_init (v : str) : result Phone :=
  if Phone_validate v then Ok (mkField v)
  else Raise (ValueError InvalidPhoneFormat).

(** ** Calendar arithmetic of [datetime]

    The proleptic Gregorian calendar; all numbers are Python [int]s. *)

Module Datetime.

Local Open Scope Z_scope.

Definition MINYEAR := 1.
Definition MAXYEAR := 9999.
Definition _MAXORDINAL := 3652059.

Definition _DAYS_IN_MONTH : list Z :=
  [-1; 31; 28; 31; 30; 31; 30; 31; 31; 30; 31; 30; 31].

Definition _DAYS_BEFORE_MONTH : list Z :=
  [-1; 0; 31; 59; 90; 120; 151; 181; 212; 243; 273; 304; 334].

Definition index (l : list Z) (i : Z) : Z := nth (Z.to_nat i) l 0.

Definition b2z (b : bool) : Z := if b then 1 else 0.

Definition _is_leap (year : Z) : bool :=
  (year mod 4 =? 0) && (negb (year mod 100 =? 0) || (year mod 400 =? 0)).

Definition _days_before_year (year : Z) : Z :=
  let y := year - 1 in
  y * 365 + y / 4 - y / 100 + y / 400.

Definition _days_in_month (year month : Z) : Z :=
  if (month =? 2) && _is_leap year then 29 else index _DAYS_IN_MONTH month.

Definition _days_before_month (year month : Z) : Z :=
  index _DAYS_BEFORE_MONTH month + b2z ((2 <? month) && _is_leap year).

Definition _ymd2ord (year month day : Z) : Z :=
  _days_before_year year + _days_before_month year month + day.

Definition _DI400Y := Eval cbv in _days_before_year 401.
Definition _DI100Y := Eval cbv in _days_before_year 101.
Definition _DI4Y := Eval cbv in _days_before_year 5.

Definition _ord2ymd (n : Z) : Z * Z * Z :=
  let n := n - 1 in
  let n400 := n / _DI400Y in
  let n := n mod _DI400Y in
  let year := n400 * 400 + 1 in
  let n100 := n / _DI100Y in
  let n := n mod _DI100Y in
  let n4 := n / _DI4Y in
  let n := n mod _DI4Y in
  let n1 := n / 365 in
  let n := n mod 365 in
  let year := year + (n100 * 100 + n4 * 4 + n1) in
  if (n1 =? 4) || (n100 =? 4) then (year - 1, 12, 31)
  else
    let leapyear := (n1 =? 3) && (negb (n4 =? 24) || (n100 =? 3)) in
    let month := Z.shiftr (n + 50) 5 in
    let preceding :=
      index _DAYS_BEFORE_MONTH month + b2z ((2 <? month) && leapyear) in
    if n <? preceding then
      let month := month - 1 in
      let preceding :=
        preceding - (index _DAYS_IN_MONTH month
                     + b2z ((month =? 2) && leapyear)) in
      (year, month, n - preceding + 1)
    else (year, month, n - preceding + 1).

Definition _check_date_fields (year month day : Z) : result unit :=
  if negb ((MINYEAR <=? year) && (year <=? MAXYEAR))
  then Raise (ValueError FieldOutOfRange)
  else if negb ((1 <=? month) && (month <=? 12))
  then Raise (ValueError FieldOutOfRange)
  else if negb ((1 <=? day) && (day <=? _days_in_month year month))
  then Raise (ValueError FieldOutOfRange)
  else Ok tt.

Definition _check_time_fields (hour minute second microsecond : Z)
  : result unit :=
  if negb ((0 <=? hour) && (hour <=? 23))
  then Raise (ValueError FieldOutOfRange)
  else if negb ((0 <=? minute) && (minute <=? 59))
  then Raise (ValueError FieldOutOfRange)
  else if negb ((0 <=? second) && (second <=? 59))
  then Raise (ValueError FieldOutOfRange)
  else if negb ((0 <=? microsecond) && (microsecond <=? 999999))
  then Raise (ValueError FieldOutOfRange)
  else Ok tt.

(** A naive [datetime] (no tzinfo). *)
Record datetime := mkDatetime {
  year : Z; month : Z; day : Z;
  hour : Z; minute : Z; second : Z; microsecond : Z
}.

Local Open Scope result_scope.

(** [datetime(year, month, day, hour, minute, second, microsecond)] *)
Definition new (y m d hh mm ss us : Z) : result datetime :=
  _ <- _check_date_fields y m d ;;
  _ <- _check_time_fields hh mm ss us ;;
  Ok (mkDatetime y m d hh mm ss us).

(** [self.replace(year=y)] *)
Definition replace_year (self : datetime) (y : Z) : result datetime :=
  new y (month self) (day self)
      (hour self) (minute self) (second self) (microsecond self).

Definition toordinal (self : datetime) : Z :=
  _ymd2ord (year self) (month self) (day self).

(** Comparison of the tuples (year, month, day, hour, minute, second,
    microsecond), as [datetime._cmp] does for two naive values. *)
Fixpoint tuple_cmp (x y : list Z) : comparison :=
  match x, y with
  | [], [] => Eq
  | [], _ :: _ => Lt
  | _ :: _, [] => Gt
  | a :: x', b :: y' =>
      match a ?= b with
      | Eq => tuple_cmp x' y'
      | c => c
      end
  end.

Definition fields (d : datetime) : list Z :=
  [year d; month d; day d; hour d; minute d; second d; microsecond d].

Definition _cmp (a b : datetime) : comparison :=
  tuple_cmp (fields a) (fields b).

(** [a <= b] *)
Definition le (a b : datetime) : bool :=
  match _cmp a b with Gt => false | _ => true end.

(** [timedelta(days=days)], kept as its number of days. *)
Definition timedelta_days (days : Z) : result Z :=
  if 999999999 <? Z.abs days then Raise OverflowError else Ok days.

(** [self + timedelta(days=days)]: the ordinal of the date moves by
    [days], the time of day stays. *)
Definition add_days (self : datetime) (days : Z) : result datetime :=
  total <- timedelta_days (toordinal self + days) ;;
  if (0 <? total) && (total <=? _MAXORDINAL) then
    let '(y, m, d) := _ord2ymd total in
    Ok (mkDatetime y m d
                   (hour self) (minute self) (second self) (microsecond self))
  else Raise OverflowError.

(** *** [int] on the text of a group

    [int(s)] for a string of decimal digits with optional blanks around
    it; signs and digit separators do not occur in what the date pattern
    captures and are not modelled. *)

Fixpoint lstrip (s : str) : str :=
  match s with
  | c :: s' => if (c =? 32)%N then lstrip s' else s
  | [] => []
  end.

Definition strip (s : str) : str := rev (lstrip (rev (lstrip s))).

Fixpoint digits_to_int (acc : Z) (s : str) : option Z :=
  match s with
  | [] => Some acc
  | c :: s' =>
      match Unicode.digit_value c with
      | Some d => digits_to_int (acc * 10 + d) s'
      | None => None
      end
  end.

Definition int (s : str) : result Z :=
  match strip s with
  | [] => Raise (ValueError InvalidLiteral)
  | t =>
      match digits_to_int 0 t with
      | Some v => Ok v
      | None => Raise (ValueError InvalidLiteral)
      end
  end.

(** *** [strptime(data_string, "%d.%m.%Y")] *)

Definition chr (c : string) : codepoint :=
  match c with
  | String a _ => N_of_ascii a
  | EmptyString => 0%N
  end.

(** [%d]: 3[0-1]|[1-2]\d|0[1-9]|[1-9]| [1-9] *)
Definition re_d : Re.regex :=
  Re.Grp "d"
    (Re.Alt (Re.Cat (Re.Chr (chr "3")) (Re.Rng (chr "0") (chr "1")))
    (Re.Alt (Re.Cat (Re.Rng (chr "1") (chr "2")) Re.Dig)
    (Re.Alt (Re.Cat (Re.Chr (chr "0")) (Re.Rng (chr "1") (chr "9")))
    (Re.Alt (Re.Rng (chr "1") (chr "9"))
            (Re.Cat (Re.Chr (chr " ")) (Re.Rng (chr "1") (chr "9"))))))).

(** [%m]: 1[0-2]|0[1-9]|[1-9] *)
Definition re_m : Re.regex :=
  Re.Grp "m"
    (Re.Alt (Re.Cat (Re.Chr (chr "1")) (Re.Rng (chr "0") (chr "2")))
    (Re.Alt (Re.Cat (Re.Chr (chr "0")) (Re.Rng (chr "1") (chr "9")))
            (Re.Rng (chr "1") (chr "9")))).

(** [%Y]: \d\d\d\d *)
Definition re_Y : Re.regex :=
  Re.Grp "Y" (Re.Cat Re.Dig (Re.Cat Re.Dig (Re.Cat Re.Dig Re.Dig))).

(** The pattern that [_strptime] builds for ["%d.%m.%Y"]; the dots of the
    format are escaped and match themselves. *)
Definition format_regex : Re.regex :=
  Re.Cat re_d (Re.Cat (Re.Chr (chr "."))
  (Re.Cat re_m (Re.Cat (Re.Chr (chr ".")) re_Y))).

Definition group_int (g : Re.groups) (name : string) : result Z :=
  match Re.groupdict g name with
  | Some v => int v
  | None => Raise (ValueError InvalidLiteral)
  end.

Definition strptime (data_string : str) : result datetime :=
  match Re.rmatch format_regex data_string with
  | None => Raise (ValueError DoesNotMatchFormat)
  | Some (rest, found) =>
      match rest with
      | _ :: _ => Raise (ValueError UnconvertedData)
      | [] =>
          d <- group_int found "d" ;;
          m <- group_int found "m" ;;
          y <- group_int found "Y" ;;
          _ <- _check_date_fields y m d ;;
          new y m d 0 0 0 0
      end
  end.

(** *** [strftime("%d.%m.%Y")]

    Day and month are written with two digits.  The year is left to the
    C library: as documented it has four digits (so on Windows and
    macOS, and everywhere from CPython 3.13 on), while glibc under an
    older CPython writes it without leading zeros. *)

Inductive year_format := ZeroPadded | Unpadded.

Fixpoint zero_padded (width : nat) (n : Z) : str :=
  match width with
  | O => []
  | S w => zero_padded w (n / 10) ++ [(48 + Z.to_N (n mod 10))%N]
  end.

Fixpoint drop_zeros (s : str) : str :=
  match s with
  | c :: s' => if (c =? 48)%N then drop_zeros s' else s
  | [] => []
  end.

(** The text of a year between 1 and 9999. *)
Definition year_text (libc : year_format) (y : Z) : str :=
  match libc with
  | ZeroPadded => zero_padded 4 y
  | Unpadded => drop_zeros (zero_padded 4 y)
  end.

Definition strftime (libc : year_format) (self : datetime) : str :=
  zero_padded 2 (day self) ++ [chr "."]
  ++ zero_padded 2 (month self) ++ [chr "."]
  ++ year_text libc (year self).

End Datetime.

Definition Birthday := Field Datetime.datetime.

(** [Birthday.__init__]: every [ValueError] of [strptime] is replaced by
    the class's own. *)
Definition Birthday_init (v : str) : result Birthday :=
  match Datetime.strptime v with
  | Ok d => Ok (mkField d)
  | Raise (ValueError _) => Raise (ValueError InvalidDateFormat)
  | Raise e => Raise e
  end.

(** ** Records *)

Record Record_ := mkRecord {
  name : Name;
  phones : list Phone;
  birthday : option Birthday
}.

(** [Record.__init__]: the name is stored as given; nothing is checked. *)
Definition Record_init (n : str) : result Record_ :=
  Ok (mkRecord (mkField n) [] None).

(** Methods that mutate [self] and may raise: the outcome comes with the
    state of the object at that point, also when the outcome is an
    exception. *)
Definition method (A : Type) := Record_ -> result A * Record_.

Definition mret {A} (a : A) : method A := fun self => (Ok a, self).

Definition mbind {A B} (c : method A) (f : A -> method B) : method B :=
  fun self =>
    match c self with
    | (Ok a, self') => f a self'
    | (Raise e, self') => (Raise e, self')
    end.

Definition lift {A} (r : result A) : method A := fun self => (r, self).

Definition get_phones : method (list Phone) :=
  fun self => (Ok (phones self), self).

Definition set_phones (ps : list Phone) : method unit :=
  fun self => (Ok tt, mkRecord (name self) ps (birthday self)).

Definition set_birthday (b : Birthday) : method unit :=
  fun self => (Ok tt, mkRecord (name self) (phones self) (Some b)).

Declare Scope method_scope.
Delimit Scope method_scope with method.
Notation "x <- c ;; k" := (mbind c (fun x => k))
  (at level 61, c at next level, right associativity) : method_scope.
Notation "c ;;; k" := (mbind c (fun _ => k))
  (at level 61, right associativity) : method_scope.

Local Open Scope method_scope.

Definition add_phone (phone : str) : method unit :=
  p <- lift (Phone_init phone) ;;
  ps <- get_phones ;;
  set_phones (ps ++ [p]).

(** The loop of [find_phone]. *)
Fixpoint find_in (ps : list Phone) (phone : str) : option Phone :=
  match ps with
  | [] => None
  | p :: ps' => if str_eqb (value p) phone then Some p else find_in ps' phone
  end.

Definition find_phone (phone : str) : method (option Phone) :=
  ps <- get_phones ;;
  mret (find_in ps phone).

(** [list.remove(x)]: drops the first occurrence of [x], raises when there
    is none.  [Field] defines no equality, so Python compares the objects
    themselves; every [Phone] of a list is an object of its own, and the
    one [find_phone] returns is the first with its value, hence the first
    element with that value is the one that goes. *)
Fixpoint list_remove (x : Phone) (l : list Phone) : result (list Phone) :=
  match l with
  | [] => Raise (ValueError NotInList)
  | p :: l' =>
      if str_eqb (value p) (value x) then Ok l'
      else match list_remove x l' with
           | Ok l'' => Ok (p :: l'')
           | Raise e => Raise e
           end
  end.

Definition phones_remove (x : Phone) : method unit :=
  ps <- get_phones ;;
  ps' <- lift (list_remove x ps) ;;
  set_phones ps'.

Definition remove_phone (phone : str) : method unit :=
  phone_to_remove <- find_phone phone ;;
  match phone_to_remove with
  | Some p => phones_remove p
  | None => mret tt
  end.

Definition edit_phone (old_phone new_phone : str) : method unit :=
  phone_to_edit <- find_phone old_phone ;;
  match phone_to_edit with
  | Some p => phones_remove p ;;; add_phone new_phone
  | None => mret tt
  end.

Definition add_birthday (b : str) : method unit :=
  bd <- lift (Birthday_init b) ;;
  set_birthday bd.

Local Close Scope method_scope.

(** ** The address book

    [UserDict.data] is a [dict]: keys are unique and keep the order of
    their first insertion. *)

Definition dict := list (str * Record_).

Fixpoint dict_set (d : dict) (k : str) (v : Record_) : dict :=
  match d with
  | [] => [(k, v)]
  | (k', v') :: d' =>
      if str_eqb k' k then (k', v) :: d' else (k', v') :: dict_set d' k v
  end.

Fixpoint dict_get (d : dict) (k : str) : option Record_ :=
  match d with
  | [] => None
  | (k', v') :: d' => if str_eqb k' k then Some v' else dict_get d' k
  end.

Definition dict_contains (d : dict) (k : str) : bool :=
  match dict_get d k with Some _ => true | None => false end.

Fixpoint dict_del (d : dict) (k : str) : dict :=
  match d with
  | [] => []
  | (k', v') :: d' => if str_eqb k' k then d' else (k', v') :: dict_del d' k
  end.

Definition dict_values (d : dict) : list Record_ := List.map snd d.
Definition dict_keys (d : dict) : list str := List.map fst d.

Record AddressBook := mkBook { data : dict }.

Definition add_record (self : AddressBook) (record : Record_) : AddressBook :=
  mkBook (dict_set (data self) (value (name record)) record).

Definition find (self : AddressBook) (n : str) : option Record_ :=
  dict_get (data self) n.

Definition delete (self : AddressBook) (n : str) : AddressBook :=
  if dict_contains (data self) n then mkBook (dict_del (data self) n)
  else self.

Local Open Scope result_scope.

(** The body of the loop of [get_upcoming_birthdays] for one record: does
    the record join the list?  In [today <= next_birthday <= today +
    timedelta(days=days)] the sum is evaluated only when the first
    comparison holds. *)
Definition is_upcoming (today : Datetime.datetime) (days : Z)
           (record : Record_) : result bool :=
  match birthday record with
  | None => Ok false
  | Some b =>
      next_birthday <- Datetime.replace_year (value b) (Datetime.year today) ;;
      if Datetime.le today next_birthday then
        delta <- Datetime.timedelta_days days ;;
        limit <- Datetime.add_days today delta ;;
        Ok (Datetime.le next_birthday limit)
      else Ok false
  end.

Fixpoint upcoming_loop (today : Datetime.datetime) (days : Z)
         (records : list Record_) (upcoming_birthdays : list Record_)
  : result (list Record_) :=
  match records with
  | [] => Ok upcoming_birthdays
  | record :: rest =>
      keep <- is_upcoming today days record ;;
      upcoming_loop today days rest
        (if keep then upcoming_birthdays ++ [record] else upcoming_birthdays)
  end.

(** [get_upcoming_birthdays(days)], with the value of [datetime.now()] as
    a parameter. *)
Definition get_upcoming_birthdays (self : AddressBook) (days : Z)
           (today : Datetime.datetime) : result (list Record_) :=
  upcoming_loop today days (dict_values (data self)) [].

Local Close Scope result_scope.

(** ** Text of a record

    [str.join], and [Record.__str__]; the year of the birthday is written
    as the C library in use writes it. *)

Fixpoint join (sep : str) (l : list str) : str :=
  match l with
  | [] => []
  | x :: l' =>
      match l' with
      | [] => x
      | _ :: _ => x ++ sep ++ join sep l'
      end
  end.

Definition Record_str (libc : Datetime.year_format) (self : Record_) : str :=
  let phones := join (cps "; ") (List.map (@value str) (phones self)) in
  let birthday :=
    match birthday self with
    | Some b => Datetime.strftime libc (value b)
    | None => cps "N/A"
    end in
  cps "Contact name: " ++ value (name self) ++ cps ", phones: " ++ phones
  ++ cps ", birthday: " ++ birthday.

(** ** Command handlers

    A handler works on the one address book of the program and returns a
    text; what it did to the book stays done when it raises.  A record
    that [find] returned is the object the book holds under that key, so
    what a method does to it is seen through the book: [update_record]
    puts the record back in its place. *)

Inductive handler_exn :=
| FromCore (e : exn)   (* raised by the classes above *)
| UnpackError (expected : nat) (at_least : bool) (got : nat)
                       (* ValueError: not enough / too many values to unpack *)
| IndexError           (* list index out of range *)
| AttributeError.      (* attribute access on None *)

Inductive outcome (A : Type) :=
| Done (a : A)
| Fail (e : handler_exn).

Arguments Done {A} a.
Arguments Fail {A} e.

Definition of_result {A} (r : result A) : outcome A :=
  match r with
  | Ok a => Done a
  | Raise e => Fail (FromCore e)
  end.

Definition update_record (self : AddressBook) (key : str) (record : Record_)
  : AddressBook :=
  mkBook (dict_set (data self) key record).

Definition newline : str := [10%N].

Section Messages.

(** The texts the library gives its own [ValueError]s. *)
Variable library_text : message -> str.
Variable unpack_text : nat -> bool -> nat -> str.

(** [str(e)] for a [ValueError] of the classes. *)
Definition str_of_message (m : message) : str :=
  match m with
  | InvalidPhoneFormat =>
      cps "Invalid phone number format. It should be 10 digits."
  | InvalidDateFormat => cps "Invalid date format. Use DD.MM.YYYY"
  | _ => library_text m
  end.

(** [except ValueError as e: return str(e)]: the text for a [ValueError],
    nothing for any other exception. *)
Definition caught (e : handler_exn) : option str :=
  match e with
  | FromCore (ValueError m) => Some (str_of_message m)
  | UnpackError expected at_least got =>
      Some (unpack_text expected at_least got)
  | _ => None
  end.

End Messages.

Section BirthdayLines.

Variable libc : Datetime.year_format.

(** One line of the list of upcoming birthdays. *)
Definition birthday_line (record : Record_) : outcome str :=
  match birthday record with
  | Some b =>
      Done (value (name record) ++ cps " on "
            ++ Datetime.strftime libc (value b))
  | None => Fail AttributeError
  end.

Fixpoint birthday_lines (records : list Record_) : outcome (list str) :=
  match records with
  | [] => Done []
  | record :: rest =>
      match birthday_line record with
      | Fail e => Fail e
      | Done line =>
          match birthday_lines rest with
          | Fail e => Fail e
          | Done lines => Done (line :: lines)
          end
      end
  end.

End BirthdayLines.

Module Task_1.

Section Handlers.

Variable library_text : message -> str.
Variable libc : Datetime.year_format.

(** The [try] block of [handle_add_contact]: the record is built on its
    own and reaches the book only when nothing raised. *)
Definition new_contact (name phone : str) (birthday : option str)
  : result Record_ :=
  match Record_init name with
  | Raise e => Raise e
  | Ok record =>
      match add_phone phone record with
      | (Raise e, _) => Raise e
      | (Ok _, record) =>
          match birthday with
          | Some (c :: b) =>
              match add_birthday (c :: b) record with
              | (Raise e, _) => Raise e
              | (Ok _, record) => Ok record
              end
          | _ => Ok record
          end
      end
  end.

Definition handle_add_contact (book : AddressBook) (name phone email : str)
           (favorite : bool) (birthday : option str)
  : outcome str * AddressBook :=
  match new_contact name phone birthday with
  | Ok record =>
      (Done (cps "Contact " ++ name ++ cps " added successfully."),
       add_record book record)
  | Raise (ValueError m) => (Done (str_of_message library_text m), book)
  | Raise e => (Fail (FromCore e), book)
  end.

Definition handle_list_contacts (book : AddressBook) : str :=
  match data book with
  | [] => cps "Address book is empty."
  | items =>
      join newline
           (cps "Contacts in address book:"
            :: List.map (fun item => Record_str libc (snd item)) items)
  end.

Definition handle_get_contact (book : AddressBook) (name : str) : str :=
  match find book name with
  | Some record => Record_str libc record
  | None => cps "Contact " ++ name ++ cps " not found."
  end.

Definition handle_remove_contact (book : AddressBook) (name : str)
  : str * AddressBook :=
  match find book name with
  | Some _ =>
      (cps "Contact " ++ name ++ cps " removed successfully.",
       delete book name)
  | None => (cps "Contact " ++ name ++ cps " not found.", book)
  end.

Definition handle_edit_contact_phone (book : AddressBook)
           (name old_phone new_phone : str) : outcome str * AddressBook :=
  match find book name with
  | Some record =>
      match edit_phone old_phone new_phone record with
      | (Ok _, record) =>
          (Done (cps "Phone number updated for contact " ++ name ++ cps "."),
           update_record book name record)
      | (Raise (ValueError m), record) =>
          (Done (str_of_message library_text m),
           update_record book name record)
      | (Raise e, record) =>
          (Fail (FromCore e), update_record book name record)
      end
  | None => (Done (cps "Contact " ++ name ++ cps " not found."), book)
  end.

(** [handle_upcoming_birthdays(book, days)]; nothing is caught here. *)
Definition handle_upcoming_birthdays (book : AddressBook) (days : Z)
           (today : Datetime.datetime) : outcome str :=
  match get_upcoming_birthdays book days today with
  | Raise e => Fail (FromCore e)
  | Ok [] => Done (cps "No upcoming birthdays within the next week.")
  | Ok upcoming_birthdays =>
      match birthday_lines libc upcoming_birthdays with
      | Fail e => Fail e
      | Done lines =>
          Done (join newline (cps "Upcoming birthdays:" :: lines))
      end
  end.

End Handlers.

End Task_1.

Module Task_2.

(** [str.split()]: the words between runs of white space. *)
Definition whitespace : list codepoint :=
  [9; 10; 11; 12; 13; 28; 29; 30; 31; 32; 133; 160; 5760; 8192; 8193; 8194;
   8195; 8196; 8197; 8198; 8199; 8200; 8201; 8202; 8232; 8233; 8239; 8287;
   12288]%N.

Definition isspace (c : codepoint) : bool :=
  existsb (N.eqb c) whitespace.

Fixpoint split_from (word : str) (s : str) : list str :=
  match s with
  | [] => match word with [] => [] | _ :: _ => [word] end
  | c :: s' =>
      if isspace c then
        match word with
        | [] => split_from [] s'
        | _ :: _ => word :: split_from [] s'
        end
      else split_from (word ++ [c]) s'
  end.

Definition split (s : str) : list str := split_from [] s.

Section Handlers.

Variable library_text : message -> str.
Variable unpack_text : nat -> bool -> nat -> str.
Variable libc : Datetime.year_format.
(** [str.lower] and [int] of the interpreter. *)
Variable lower : str -> str.
Variable int : str -> option Z.

Definition handler := list str -> AddressBook -> outcome str * AddressBook.

(** The decorator: a [ValueError] of the wrapped function becomes its
    text; any other exception passes. *)
Definition input_error (func : handler) : handler :=
  fun args book =>
    match func args book with
    | (Done text, book') => (Done text, book')
    | (Fail e, book') =>
        match caught library_text unpack_text e with
        | Some text => (Done text, book')
        | None => (Fail e, book')
        end
    end.

Definition add_contact_func : handler :=
  fun args book =>
    match args with
    | name :: phone :: _ =>
        let '(record, book, message) :=
          match find book name with
          | None =>
              match Record_init name with
              | Ok record =>
                  (Ok record, add_record book record, cps "Contact added.")
              | Raise e => (Raise e, book, cps "Contact updated.")
              end
          | Some record => (Ok record, book, cps "Contact updated.")
          end in
        match record with
        | Raise e => (Fail (FromCore e), book)
        | Ok record =>
            match phone with
            | [] => (Done message, book)
            | _ :: _ =>
                match add_phone phone record with
                | (Ok _, record) =>
                    (Done message, update_record book name record)
                | (Raise e, record) =>
                    (Fail (FromCore e), update_record book name record)
                end
            end
        end
    | _ => (Fail (UnpackError 2 true (length args)), book)
    end.

Definition add_contact : handler := input_error add_contact_func.

Definition change_phone_func : handler :=
  fun args book =>
    match args with
    | [name; old_phone; new_phone] =>
        match find book name with
        | Some record =>
            match edit_phone old_phone new_phone record with
            | (Ok _, record) =>
                (Done (cps "Phone number updated for contact " ++ name
                       ++ cps "."),
                 update_record book name record)
            | (Raise e, record) =>
                (Fail (FromCore e), update_record book name record)
            end
        | None => (Done (cps "Contact " ++ name ++ cps " not found."), book)
        end
    | _ => (Fail (UnpackError 3 false (length args)), book)
    end.

Definition change_phone : handler := input_error change_phone_func.

Definition show_phone_func : handler :=
  fun args book =>
    match args with
    | name :: _ =>
        match find book name with
        | Some record =>
            (Done (name ++ cps "'s phones: "
                   ++ join (cps ", ") (List.map (@value str) (phones record))),
             book)
        | None => (Done (cps "Contact " ++ name ++ cps " not found."), book)
        end
    | [] => (Fail IndexError, book)
    end.

Definition show_phone : handler := input_error show_phone_func.

Definition list_contacts_func : handler :=
  fun args book =>
    match data book with
    | [] => (Done (cps "Address book is empty."), book)
    | items =>
        (Done (join newline
                 (cps "Contacts in address book:"
                  :: List.map (fun item => Record_str libc (snd item)) items)),
         book)
    end.

Definition list_contacts : handler := input_error list_contacts_func.

Definition add_birthday_func : handler :=
  fun args book =>
    match args with
    | [name; birthday] =>
        match find book name with
        | Some record =>
            match add_birthday birthday record with
            | (Ok _, record) =>
                (Done (cps "Birthday added for contact " ++ name ++ cps "."),
                 update_record book name record)
            | (Raise e, record) =>
                (Fail (FromCore e), update_record book name record)
            end
        | None => (Done (cps "Contact " ++ name ++ cps " not found."), book)
        end
    | _ => (Fail (UnpackError 2 false (length args)), book)
    end.

Definition add_birthday : handler := input_error add_birthday_func.

Definition show_birthday_func : handler :=
  fun args book =>
    match args with
    | name :: _ =>
        match find book name with
        | Some record =>
            match birthday record with
            | Some b =>
                (Done (name ++ cps "'s birthday is on "
                       ++ Datetime.strftime libc (value b) ++ cps "."),
                 book)
            | None =>
                (Done (cps "Birthday not set for contact " ++ name
                       ++ cps "."),
                 book)
            end
        | None => (Done (cps "Contact " ++ name ++ cps " not found."), book)
        end
    | [] => (Fail IndexError, book)
    end.

Definition show_birthday : handler := input_error show_birthday_func.

(** [birthdays], with the value of [datetime.now()] as a parameter. *)
Definition birthdays_func (today : Datetime.datetime) : handler :=
  fun args book =>
    let days :=
      match args with
      | [] => Ok 7%Z
      | a :: _ =>
          match int a with
          | Some n => Ok n
          | None => Raise (ValueError InvalidLiteral)
          end
      end in
    match days with
    | Raise e => (Fail (FromCore e), book)
    | Ok days =>
        match get_upcoming_birthdays book days today with
        | Raise e => (Fail (FromCore e), book)
        | Ok [] =>
            (Done (cps "No upcoming birthdays within the next week."), book)
        | Ok upcoming_birthdays =>
            match birthday_lines libc upcoming_birthdays with
            | Fail e => (Fail e, book)
            | Done lines =>
                (Done (join newline (cps "Upcoming birthdays:" :: lines)),
                 book)
            end
        end
    end.

Definition birthdays (today : Datetime.datetime) : handler :=
  input_error (birthdays_func today).

Definition parse_input (user_input : str) : outcome (str * list str) :=
  match split user_input with
  | [] => Fail IndexError
  | command :: args => Done (lower command, args)
  end.

End Handlers.

End Task_2.

(** ** Specification-level notions *)

(** What a pattern matches, without the search: [Matches r p g g'] says
    that [r] matches exactly the text [p], turning the groups [g] into
    [g']. *)
Inductive Matches : Re.regex -> str -> Re.groups -> Re.groups -> Prop :=
| M_chr c g : Matches (Re.Chr c) [c] g g
| M_rng lo hi c g :
    (lo <= c <= hi)%N -> Matches (Re.Rng lo hi) [c] g g
| M_dig c g :
    Unicode.is_decimal c = true -> Matches Re.Dig [c] g g
| M_cat r1 r2 p1 p2 g g1 g2 :
    Matches r1 p1 g g1 -> Matches r2 p2 g1 g2 ->
    Matches (Re.Cat r1 r2) (p1 ++ p2) g g2
| M_alt_l r1 r2 p g g' :
    Matches r1 p g g' -> Matches (Re.Alt r1 r2) p g g'
| M_alt_r r1 r2 p g g' :
    Matches r2 p g g' -> Matches (Re.Alt r1 r2) p g g'
| M_rep_O r g : Matches (Re.Rep 0 r) [] g g
| M_rep_S n r p1 p2 g g1 g2 :
    Matches r p1 g g1 -> Matches (Re.Rep n r) p2 g1 g2 ->
    Matches (Re.Rep (S n) r) (p1 ++ p2) g g2
| M_grp name r p g g' :
    Matches r p g g' -> Matches (Re.Grp name r) p g ((name, p) :: g').

(** A phone number: ten characters, each a decimal digit. *)
Definition valid_phone (s : str) : Prop :=
  length s = 10%nat /\ Forall (fun c => Unicode.is_decimal c = true) s.

Definition in_range (lo hi : string) (c : codepoint) : bool :=
  ((Datetime.chr lo <=? c) && (c <=? Datetime.chr hi))%N.

Definition is_chr (x : string) (c : codepoint) : bool :=
  (c =? Datetime.chr x)%N.

(** The day of a date text: 01..09, 10..29, 30, 31, or one of 1..9 alone
    or after a blank. *)
Definition day_field (D : str) : bool :=
  match D with
  | [a] => in_range "1" "9" a
  | [a; b] =>
      (is_chr "3" a && in_range "0" "1" b)
      || (in_range "1" "2" a && Unicode.is_decimal b)
      || (is_chr "0" a && in_range "1" "9" b)
      || (is_chr " " a && in_range "1" "9" b)
  | _ => false
  end.

(** The month of a date text: 01..09, 10..12, or one of 1..9 alone. *)
Definition month_field (M : str) : bool :=
  match M with
  | [a] => in_range "1" "9" a
  | [a; b] =>
      (is_chr "1" a && in_range "0" "2" b)
      || (is_chr "0" a && in_range "1" "9" b)
  | _ => false
  end.

(** The year of a date text: exactly four decimal digits. *)
Definition year_field (Y : str) : bool :=
  match Y with
  | [a; b; c; d] =>
      Unicode.is_decimal a && Unicode.is_decimal b
      && Unicode.is_decimal c && Unicode.is_decimal d
  | _ => false
  end.

(** The strict form DD.MM.YYYY: ten characters, dots at the third and the
    sixth place. *)
Definition strict_dmY (s : str) : bool :=
  match s with
  | [d1; d2; p1; m1; m2; p2; y1; y2; y3; y4] =>
      Unicode.is_decimal d1 && Unicode.is_decimal d2 && is_chr "." p1
      && Unicode.is_decimal m1 && Unicode.is_decimal m2 && is_chr "." p2
      && year_field [y1; y2; y3; y4]
  | _ => false
  end.

(** A real calendar date, in the range [datetime] supports. *)
Definition real_date (y m d : Z) : Prop :=
  (1 <= y <= 9999 /\ 1 <= m <= 12
   /\ 1 <= d <= Datetime._days_in_month y m)%Z.

Definition midnight (y m d : Z) : Datetime.datetime :=
  Datetime.mkDatetime y m d 0 0 0 0.

(** A [datetime] that the constructor accepts. *)
Definition valid_datetime (t : Datetime.datetime) : Prop :=
  real_date (Datetime.year t) (Datetime.month t) (Datetime.day t)
  /\ (0 <= Datetime.hour t <= 23 /\ 0 <= Datetime.minute t <= 59
      /\ 0 <= Datetime.second t <= 59
      /\ 0 <= Datetime.microsecond t <= 999999)%Z.

(** The point in time of a [datetime], in microseconds since the start of
    day 0 of the calendar. *)
Definition instant (t : Datetime.datetime) : Z :=
  ((((Datetime.toordinal t * 24 + Datetime.hour t) * 60
     + Datetime.minute t) * 60 + Datetime.second t) * 1000000
   + Datetime.microsecond t)%Z.

Definition microseconds_per_day : Z := 86400000000.

(** The number a field of a date text denotes: its digits, read in base
    ten; a blank counts for nothing. *)
Definition digit_step (acc : Z) (c : codepoint) : Z :=
  match Unicode.digit_value c with
  | Some v => (acc * 10 + v)%Z
  | None => acc
  end.

Definition field_number (s : str) : Z := fold_left digit_step s 0%Z.

(** The entries of a dictionary under one key. *)
Definition entries_under (d : dict) (k : str) : list (str * Record_) :=
  List.filter (fun e => str_eqb (fst e) k) d.

Local Open Scope Z_scope.

(** Days within a year depend on the year only through its being leap. *)
Definition month_start (leap : bool) (m : Z) : Z :=
  (Datetime.index Datetime._DAYS_BEFORE_MONTH m
   + Datetime.b2z ((2 <? m) && leap))%Z.

Definition month_length (leap : bool) (m : Z) : Z :=
  if (m =? 2) && leap then 29 else Datetime.index Datetime._DAYS_IN_MONTH m.

Fixpoint all_from (P : Z -> bool) (lo : Z) (len : nat) : bool :=
  match len with
  | O => true
  | S k => P lo && all_from P (lo + 1) k
  end.

Definition months_in_order (leap : bool) : bool :=
  all_from (fun m =>
    (1 <=? month_length leap m)
    && (month_start leap m + month_length leap m <=? 365 + Datetime.b2z leap)
    && (0 <=? month_start leap m)
    && all_from (fun m' =>
          (m' <=? m)
          || (month_start leap m + month_length leap m <=? month_start leap m'))
        1 12)
    1 12.

(** The month and the day of the month at an offset into a year, as the
    last part of [_ord2ymd] finds them. *)
Definition month_day (leapyear : bool) (n : Z) : Z * Z :=
  let month := Z.shiftr (n + 50) 5 in
  let preceding :=
    Datetime.index Datetime._DAYS_BEFORE_MONTH month
    + Datetime.b2z ((2 <? month) && leapyear) in
  if n <? preceding then
    let month := month - 1 in
    let preceding :=
      preceding - (Datetime.index Datetime._DAYS_IN_MONTH month
                   + Datetime.b2z ((month =? 2) && leapyear)) in
    (month, n - preceding + 1)
  else (month, n - preceding + 1).

Definition month_day_ok (leap : bool) (n : Z) : bool :=
  let '(m, d) := month_day leap n in
  (1 <=? m) && (m <=? 12) && (1 <=? d) && (d <=? month_length leap m)
  && (month_start leap m + d =? n + 1).

Definition dot : codepoint := Datetime.chr ".".

Definition blank : codepoint := Datetime.chr " ".

(** The time of day, in microseconds. *)
Definition time_of_day (t : Datetime.datetime) : Z :=
  ((Datetime.hour t * 60 + Datetime.minute t) * 60 + Datetime.second t)
  * 1000000 + Datetime.microsecond t.

(** The closed window of [days] days that starts at [today]. *)
Definition in_window (today : Datetime.datetime) (days : Z)
           (p : Datetime.datetime) : bool :=
  (instant today <=? instant p)
  && (instant p <=? instant today + days * microseconds_per_day).

(** Sample data. *)
Definition alice : Record_ :=
  mkRecord (mkField (cps "Alice")) [mkField (cps "0501234567")]
           (Some (mkField (midnight 1990 6 15))).

Definition bob : Record_ :=
  mkRecord (mkField (cps "Bob")) [mkField (cps "0679876543")]
           (Some (mkField (midnight 2000 2 29))).

Definition only_alice : AddressBook := mkBook [(cps "Alice", alice)].

Definition bob_and_alice : AddressBook :=
  mkBook [(cps "Bob", bob); (cps "Alice", alice)].

(** Every phone of the record is a valid phone number. *)
Definition phones_valid (self : Record_) : Prop :=
  Forall (fun p => valid_phone (value p)) (phones self).

(** The strict form DD.MM.YYYY written with the digits 0-9. *)
Definition ascii_dmY (s : str) : bool :=
  match s with
  | [d1; d2; p1; m1; m2; p2; y1; y2; y3; y4] =>
      forallb Unicode.is_ascii_digit [d1; d2; m1; m2; y1; y2; y3; y4]
      && is_chr "." p1 && is_chr "." p2
  | _ => false
  end.

(** The birthday of the record, when there is one, is a real calendar
    date at midnight. *)
Definition birthday_valid (self : Record_) : Prop :=
  forall b, birthday self = Some b ->
            valid_datetime (value b) /\ time_of_day (value b) = 0.

Definition record_valid (self : Record_) : Prop :=
  phones_valid self /\ birthday_valid self.

(** Does the record belong in the list of upcoming birthdays? *)
Definition listed (today : Datetime.datetime) (days : Z) (r : Record_)
  : bool :=
  match birthday r with
  | Some b =>
      match Datetime.replace_year (value b) (Datetime.year today) with
      | Ok p => in_window today days p
      | Raise _ => false
      end
  | None => false
  end.

(** Every birthday in the book can be moved to the year [y]. *)
Definition projections_exist (book : AddressBook) (y : Z) : Prop :=
  forall r b,
    In r (dict_values (data book)) -> birthday r = Some b ->
    exists p, Datetime.replace_year (value b) y = Ok p.

(** The two error texts of the classes. *)
Definition invalid_phone_text : str :=
  cps "Invalid phone number format. It should be 10 digits.".

Definition invalid_date_text : str :=
  cps "Invalid date format. Use DD.MM.YYYY".

(** The line of a record in the list of upcoming birthdays. *)
Definition birthday_text (libc : Datetime.year_format) (r : Record_) : str :=
  match birthday r with
  | Some b =>
      value (name r) ++ cps " on " ++ Datetime.strftime libc (value b)
  | None => []
  end.

(** What [except ValueError] makes of an outcome. *)
Definition catch_value_error (library_text : message -> str)
           (o : outcome str) : outcome str :=
  match o with
  | Fail (FromCore (ValueError m)) => Done (str_of_message library_text m)
  | _ => o
  end.

(** A word: not empty and free of white space. *)
Definition is_word (w : str) : bool :=
  match w with
  | [] => false
  | _ :: _ => negb (existsb Task_2.isspace w)
  end.

Local Close Scope Z_scope.

(** ** Properties *)

Lemma str_eqb_eq a b : str_eqb a b = true <-> a = b.
Proof.
  unfold str_eqb. destruct (list_eq_dec N.eq_dec a b); split; congruence.
Qed.

Lemma str_eqb_refl a : str_eqb a a = true.
Proof. now apply str_eqb_eq. Qed.

Lemma str_eqb_neq a b : str_eqb a b = false <-> a <> b.
Proof.
  unfold str_eqb. destruct (list_eq_dec N.eq_dec a b); split; congruence.
Qed.

(** *** The matcher finds what the pattern matches *)

Section MatcherCorrect.
Variable R : Type.

Lemma firstn_consumed (p s' : str) :
  firstn (length (p ++ s') - length s') (p ++ s') = p.
Proof.
  rewrite length_app, Nat.add_sub.
  rewrite firstn_app, Nat.sub_diag, firstn_all. simpl.
  now rewrite app_nil_r.
Qed.

Lemma run_sound (r : Re.regex) :
  forall s g (k : str -> Re.groups -> option R) x,
    Re.run r s g k = Some x ->
    exists p s' g', s = p ++ s' /\ Matches r p g g' /\ k s' g' = Some x.
Proof.
  induction r; intros s g k x H; simpl in H.
  - destruct s as [|a s]; [discriminate|].
    destruct (N.eqb_spec a c); [subst|discriminate].
    exists [c], s, g. repeat split; auto. constructor.
  - destruct s as [|a s]; [discriminate|].
    destruct ((lo <=? a)%N && (a <=? hi)%N) eqn:E; [|discriminate].
    apply andb_true_iff in E. destruct E as [E1 E2].
    apply N.leb_le in E1, E2.
    exists [a], s, g. repeat split; auto. now constructor.
  - destruct s as [|a s]; [discriminate|].
    destruct (Unicode.is_decimal a) eqn:E; [|discriminate].
    exists [a], s, g. repeat split; auto. now constructor.
  - apply IHr1 in H. destruct H as (p1 & s1 & g1 & -> & M1 & H).
    apply IHr2 in H. destruct H as (p2 & s2 & g2 & -> & M2 & H).
    exists (p1 ++ p2), s2, g2. rewrite <- app_assoc.
    repeat split; auto. econstructor; eauto.
  - destruct (Re.run r1 s g k) eqn:E.
    + inversion H; subst. apply IHr1 in E.
      destruct E as (p & s' & g' & -> & M & E).
      exists p, s', g'. repeat split; auto. now apply M_alt_l.
    + apply IHr2 in H. destruct H as (p & s' & g' & -> & M & E').
      exists p, s', g'. repeat split; auto. now apply M_alt_r.
  - revert s g x H. induction n as [|n IHn]; intros s g x H.
    + exists [], s, g. repeat split; auto. constructor.
    + apply IHr in H. destruct H as (p1 & s1 & g1 & -> & M1 & H).
      apply IHn in H. destruct H as (p2 & s2 & g2 & -> & M2 & H).
      exists (p1 ++ p2), s2, g2. rewrite <- app_assoc.
      repeat split; auto. econstructor; eauto.
  - apply IHr in H. destruct H as (p & s' & g' & -> & M & H).
    rewrite firstn_consumed in H.
    eexists p, s', _. split; [reflexivity|]. split; [|exact H].
    now constructor.
Qed.

Lemma run_complete r p g g' :
  Matches r p g g' ->
  forall s' (k : str -> Re.groups -> option R) x,
    k s' g' = Some x -> exists x', Re.run r (p ++ s') g k = Some x'.
Proof.
  induction 1; intros s' k x Hk; simpl.
  - rewrite N.eqb_refl. eauto.
  - destruct H as [H1 H2]. apply N.leb_le in H1, H2.
    rewrite H1, H2. simpl. eauto.
  - rewrite H. eauto.
  - rewrite <- app_assoc.
    destruct (IHMatches2 s' k x Hk) as [x2 E2].
    eapply IHMatches1. exact E2.
  - destruct (IHMatches s' k x Hk) as [x1 E1]. rewrite E1. eauto.
  - destruct (Re.run r1 (p ++ s') g k) eqn:E; eauto.
  - eauto.
  - rewrite <- app_assoc.
    destruct (IHMatches2 s' k x Hk) as [x2 E2].
    eapply IHMatches1. simpl in E2. exact E2.
  - eapply IHMatches with (x := x). now rewrite firstn_consumed.
Qed.
End MatcherCorrect.

Lemma fullmatch_iff (r : Re.regex) (s : str) :
  (exists g, Re.fullmatch r s = Some g) <-> (exists g, Matches r s [] g).
Proof.
  unfold Re.fullmatch. split; intros [g H].
  - apply run_sound in H. destruct H as (p & s' & g' & -> & M & H).
    destruct s'; [|discriminate]. rewrite app_nil_r. eauto.
  - pose proof (@run_complete Re.groups r s [] g H []
                  (fun s' g0 => match s' with [] => Some g0 | _ :: _ => None end)
                  g eq_refl) as Hx.
    rewrite app_nil_r in Hx. exact Hx.
Qed.

(** *** Decimal digits *)

Lemma ascii_digit_value (c : codepoint) :
  Unicode.is_ascii_digit c = true ->
  Unicode.digit_value c = Some (Z.of_N c - 48)%Z.
Proof.
  unfold Unicode.is_ascii_digit. intros H.
  apply andb_true_iff in H. destruct H as [H1 H2].
  apply N.leb_le in H1, H2.
  unfold Unicode.digit_value, Unicode.decimal_zeros.
  cbn [Unicode.digit_in].
  replace (48 <=? c)%N with true by (symmetry; apply N.leb_le; lia).
  replace (c <? 48 + 10)%N with true by (symmetry; apply N.ltb_lt; lia).
  simpl. f_equal. lia.
Qed.

Lemma ascii_digit_is_decimal (c : codepoint) :
  Unicode.is_ascii_digit c = true -> Unicode.is_decimal c = true.
Proof.
  intros H. unfold Unicode.is_decimal. now rewrite (ascii_digit_value _ H).
Qed.

Lemma digit_in_bounds zeros c v :
  Unicode.digit_in zeros c = Some v -> (0 <= v <= 9)%Z.
Proof.
  induction zeros as [|z zs IH]; simpl; [discriminate|].
  destruct ((z <=? c)%N && (c <? z + 10)%N) eqn:E; [|exact IH].
  apply andb_true_iff in E. destruct E as [E1 E2].
  apply N.leb_le in E1. apply N.ltb_lt in E2.
  intros H. inversion H. lia.
Qed.

Lemma digit_value_bounds c v :
  Unicode.digit_value c = Some v -> (0 <= v <= 9)%Z.
Proof. apply digit_in_bounds. Qed.

(** *** Phone numbers *)

Lemma matches_rep_dig n :
  forall p g g',
    Matches (Re.Rep n Re.Dig) p g g' <->
    (length p = n /\ Forall (fun c => Unicode.is_decimal c = true) p
     /\ g' = g).
Proof.
  induction n as [|n IH]; intros p g g'; split.
  - inversion 1; subst. auto.
  - intros (L & _ & ->). destruct p; [constructor|discriminate].
  - inversion 1; subst.
    match goal with
    | H1 : Matches Re.Dig _ _ _, H2 : Matches (Re.Rep n _) _ _ _ |- _ =>
        inversion H1; subst; apply IH in H2; destruct H2 as (L & F & ->)
    end.
    simpl. repeat split; auto.
  - intros (L & F & ->). destruct p as [|c p]; [discriminate|].
    inversion F; subst. simpl in L.
    change (c :: p) with ([c] ++ p).
    econstructor; [now constructor|]. apply IH. auto.
Qed.

Lemma Phone_validate_iff (s : str) :
  Phone_validate s = true <-> valid_phone s.
Proof.
  unfold Phone_validate, valid_phone. split.
  - destruct (Re.fullmatch phone_pattern s) eqn:E; [|discriminate].
    intros _. assert (H : exists g, Matches phone_pattern s [] g)
      by (apply fullmatch_iff; eauto).
    destruct H as [g' H]. apply matches_rep_dig in H. tauto.
  - intros [L F].
    assert (H : exists g, Re.fullmatch phone_pattern s = Some g).
    { apply fullmatch_iff. exists []. apply matches_rep_dig. auto. }
    destruct H as [g' ->]. reflexivity.
Qed.

Lemma Phone_validate_false (s : str) :
  ~ valid_phone s -> Phone_validate s = false.
Proof.
  intros H. destruct (Phone_validate s) eqn:E; [|reflexivity].
  now apply Phone_validate_iff in E.
Qed.

(** C2. Constructing a [Phone] from [s] succeeds, and stores [s] itself,
    exactly when [s] is made of ten decimal digits (the characters [\d]
    matches: 0-9 and the decimal digits of the other scripts of Unicode);
    every other string raises the invalid-phone-format [ValueError].  In
    particular every string of ten digits 0-9 is accepted. *)
Theorem Phone_init_spec (s : str) :
  (Phone_init s = Ok (mkField s) <-> valid_phone s)
  /\ (forall p, Phone_init s = Ok p -> value p = s /\ valid_phone s)
  /\ (~ valid_phone s -> Phone_init s = Raise (ValueError InvalidPhoneFormat))
  /\ (length s = 10%nat ->
      Forall (fun c => Unicode.is_ascii_digit c = true) s ->
      Phone_init s = Ok (mkField s)).
Proof.
  unfold Phone_init.
  split; [|split; [|split]].
  - split.
    + destruct (Phone_validate s) eqn:E; [|discriminate].
      intros _. now apply Phone_validate_iff.
    + intros H. apply Phone_validate_iff in H. now rewrite H.
  - intros p H. destruct (Phone_validate s) eqn:E; [|discriminate].
    inversion H; subst. split; [reflexivity|]. now apply Phone_validate_iff.
  - intros H. now rewrite (Phone_validate_false H).
  - intros L F.
    assert (V : valid_phone s).
    { split; [exact L|]. eapply Forall_impl; [|exact F].
      intros c. apply ascii_digit_is_decimal. }
    apply Phone_validate_iff in V. now rewrite V.
Qed.

(** *** Records: phones *)

Lemma add_phone_valid (self : Record_) (v : str) :
  valid_phone v ->
  add_phone v self
  = (Ok tt, mkRecord (name self) (phones self ++ [mkField v]) (birthday self)).
Proof.
  intros V. apply Phone_validate_iff in V.
  unfold add_phone, mbind, lift, Phone_init. rewrite V. reflexivity.
Qed.

Lemma add_phone_rejects (self : Record_) (raw : str) :
  ~ valid_phone raw ->
  add_phone raw self = (Raise (ValueError InvalidPhoneFormat), self).
Proof.
  intros V. apply Phone_validate_false in V.
  unfold add_phone, mbind, lift, Phone_init. rewrite V. reflexivity.
Qed.

Lemma find_in_value ps v p : find_in ps v = Some p -> value p = v.
Proof.
  induction ps as [|q ps IH]; simpl; [discriminate|].
  destruct (str_eqb (value q) v) eqn:E; [|exact IH].
  intros H; inversion H; subst. now apply str_eqb_eq.
Qed.

Lemma find_in_none ps v :
  find_in ps v = None <-> ~ In v (List.map (@value str) ps).
Proof.
  induction ps as [|q ps IH]; simpl; [tauto|].
  destruct (str_eqb (value q) v) eqn:E.
  - apply str_eqb_eq in E. split; [discriminate|]. intros H. tauto.
  - apply str_eqb_neq in E. rewrite IH. tauto.
Qed.

Lemma find_in_app ps qs v :
  find_in (ps ++ qs) v
  = match find_in ps v with Some p => Some p | None => find_in qs v end.
Proof.
  induction ps as [|q ps IH]; simpl; [reflexivity|].
  now destruct (str_eqb (value q) v).
Qed.

(** Removing the phone that [find_in] returned cuts the list at the first
    element with that value. *)
Lemma list_remove_found ps v p :
  find_in ps v = Some p ->
  exists l1 l2,
    ps = l1 ++ p :: l2 /\ find_in l1 v = None
    /\ list_remove p ps = Ok (l1 ++ l2).
Proof.
  induction ps as [|q ps IH]; simpl; [discriminate|].
  destruct (str_eqb (value q) v) eqn:E.
  - intros H; inversion H; subst. exists [], ps.
    rewrite str_eqb_refl. auto.
  - intros H. pose proof (find_in_value _ _ H) as Hv.
    destruct (IH H) as (l1 & l2 & -> & N & Rm).
    exists (q :: l1), l2. simpl. rewrite Hv, E, Rm. auto.
Qed.

Lemma first_occurrence_unique (v : str) (p q : Phone) :
  value p = v -> value q = v ->
  forall k1 l1 k2 l2,
    find_in k1 v = None -> find_in l1 v = None ->
    k1 ++ q :: k2 = l1 ++ p :: l2 ->
    k1 = l1 /\ q = p /\ k2 = l2.
Proof.
  intros Hp Hq. subst v.
  induction k1 as [|a k1 IH]; intros [|b l1] k2 l2 N1 N2 E; simpl in *.
  - inversion E; auto.
  - inversion E; subst. rewrite Hq, str_eqb_refl in N2. discriminate.
  - inversion E; subst. rewrite str_eqb_refl in N1. discriminate.
  - inversion E; subst.
    destruct (str_eqb (value b) (value p)); [discriminate|].
    destruct (IH l1 k2 l2 N1 N2 H1) as (-> & -> & ->). auto.
Qed.

(** C5. For a string that is not a valid phone number, [add_phone]
    raises the invalid-phone-format [ValueError] and the record, its list
    of phones included, is what it was before the call. *)
Theorem add_phone_invalid_unchanged (self : Record_) (raw : str) :
  ~ valid_phone raw ->
  fst (add_phone raw self) = Raise (ValueError InvalidPhoneFormat)
  /\ snd (add_phone raw self) = self
  /\ phones (snd (add_phone raw self)) = phones self.
Proof.
  intros V. rewrite (add_phone_rejects self V). auto.
Qed.

Lemma add_phone_invalid_unchanged_witness :
  let self := mkRecord (mkField (cps "Alice"))
                       [mkField (cps "0501234567")] None in
  fst (add_phone (cps "12345") self) = Raise (ValueError InvalidPhoneFormat)
  /\ snd (add_phone (cps "12345") self) = self
  /\ phones (snd (add_phone (cps "12345") self)) = phones self.
Proof.
  apply add_phone_invalid_unchanged.
  intros [L _]. discriminate L.
Defined.

(** C6 (amended). For a valid phone number [v]: after [add_phone v],
    [find_phone v] returns a phone whose value is [v]; [remove_phone v]
    then takes out one phone with that value, the first, so [find_phone v]
    returns nothing afterwards exactly when the record did not hold [v]
    before the addition, and then the record is back to what it was.
    When the record did hold [v], the phone that is found and removed is
    the first one the record had with that value: the phones before and
    after it stay, in their order, with the added phone as the last, and
    [find_phone v] still finds a phone with value [v]. *)
Theorem add_find_remove_phone (self : Record_) (v : str) :
  valid_phone v ->
  exists s1 s2 p,
    add_phone v self = (Ok tt, s1)
    /\ find_phone v s1 = (Ok (Some p), s1) /\ value p = v
    /\ remove_phone v s1 = (Ok tt, s2)
    /\ (find_phone v s2 = (Ok None, s2)
        <-> ~ In v (List.map (@value str) (phones self)))
    /\ (~ In v (List.map (@value str) (phones self)) -> s2 = self)
    /\ (In v (List.map (@value str) (phones self)) ->
        exists l1 l2,
          phones self = l1 ++ p :: l2
          /\ ~ In v (List.map (@value str) l1)
          /\ s2 = mkRecord (name self) (l1 ++ l2 ++ [mkField v])
                           (birthday self)
          /\ exists q, find_phone v s2 = (Ok (Some q), s2) /\ value q = v).
Proof.
  intros V. rewrite (add_phone_valid self V).
  set (s1 := mkRecord (name self) (phones self ++ [mkField v]) (birthday self)).
  assert (F : exists p, find_in (phones s1) v = Some p).
  { simpl. rewrite find_in_app. destruct (find_in (phones self) v); eauto.
    simpl. rewrite str_eqb_refl. eauto. }
  destruct F as [p F].
  destruct (list_remove_found _ _ F) as (l1 & l2 & E & N & Rm).
  exists s1, (mkRecord (name self) (l1 ++ l2) (birthday self)), p.
  split; [reflexivity|].
  split; [unfold find_phone, mbind, get_phones, mret; now rewrite F|].
  split; [eapply find_in_value; eauto|].
  split.
  { unfold remove_phone, find_phone, phones_remove, mbind, get_phones, mret,
      lift, set_phones. rewrite F, Rm. reflexivity. }
  simpl in E.
  assert (Hv : value p = v) by (eapply find_in_value; eauto).
  rewrite <- find_in_none.
  destruct (find_in (phones self) v) as [q|] eqn:Q.
  - (* [v] was already there: the copy that was added stays *)
    destruct (list_remove_found _ _ Q) as (k1 & k2 & E' & N' & _).
    rewrite E', <- app_assoc in E. simpl in E.
    pose proof (find_in_value _ _ Q) as Hq.
    destruct (@first_occurrence_unique v p q Hv Hq _ _ _ _ N' N E)
      as (<- & <- & <-).
    assert (G : exists q', find_in (k1 ++ k2 ++ [mkField v]) v = Some q').
    { rewrite !find_in_app, N'. simpl. rewrite str_eqb_refl.
      destruct (find_in k2 v); eauto. }
    destruct G as [q' G].
    assert (Fs : find_phone v (mkRecord (name self)
                                 (k1 ++ k2 ++ [mkField v]) (birthday self))
                 = (Ok (Some q'),
                    mkRecord (name self) (k1 ++ k2 ++ [mkField v])
                             (birthday self))).
    { unfold find_phone, mbind, get_phones, mret. simpl. now rewrite G. }
    split; [split; [|discriminate]|split; [discriminate|]].
    + rewrite Fs. intros H; inversion H.
    + intros _. exists k1, k2.
      split; [exact E'|]. split; [now apply find_in_none|].
      split; [reflexivity|].
      exists q'. split; [exact Fs|]. eapply find_in_value; eauto.
  - (* [v] is new: what is removed is what was added *)
    destruct (@first_occurrence_unique v p (mkField v) Hv eq_refl
                _ _ _ _ Q N E) as (<- & _ & <-).
    rewrite app_nil_r. split; [|split].
    + split; auto. intros _.
      unfold find_phone, mbind, get_phones, mret. simpl. now rewrite Q.
    + intros _. now destruct self.
    + intros I. apply find_in_none in Q. tauto.
Qed.

Lemma add_find_remove_phone_witness :
  let self :=
    mkRecord (mkField (cps "Alice"))
             [mkField (cps "0679876543"); mkField (cps "0501234567");
              mkField (cps "0931112233"); mkField (cps "0501234567")] None in
  let v := cps "0501234567" in
  exists s1 s2 p,
    add_phone v self = (Ok tt, s1)
    /\ find_phone v s1 = (Ok (Some p), s1) /\ value p = v
    /\ remove_phone v s1 = (Ok tt, s2)
    /\ (find_phone v s2 = (Ok None, s2)
        <-> ~ In v (List.map (@value str) (phones self)))
    /\ (~ In v (List.map (@value str) (phones self)) -> s2 = self)
    /\ (In v (List.map (@value str) (phones self)) ->
        exists l1 l2,
          phones self = l1 ++ p :: l2
          /\ ~ In v (List.map (@value str) l1)
          /\ s2 = mkRecord (name self) (l1 ++ l2 ++ [mkField v])
                           (birthday self)
          /\ exists q, find_phone v s2 = (Ok (Some q), s2) /\ value q = v).
Proof.
  intros self v. apply (add_find_remove_phone self (v := v)).
  split; [reflexivity|].
  repeat constructor.
Defined.

(** C6, as stated, fails on a record that already holds the number:
    one copy is removed and the other is still found. *)
Lemma remove_phone_leaves_duplicate :
  let v := cps "0501234567" in
  let self := mkRecord (mkField (cps "Alice")) [mkField v] None in
  valid_phone v
  /\ exists s1 s2,
      add_phone v self = (Ok tt, s1)
      /\ remove_phone v s1 = (Ok tt, s2)
      /\ find_phone v s2 = (Ok (Some (mkField v)), s2).
Proof.
  simpl. split.
  - split; [reflexivity|]. repeat constructor.
  - do 2 eexists. repeat split; vm_compute; reflexivity.
Qed.

(** [edit_phone] in general: nothing happens when the old value is not
    found; otherwise the first phone with that value is removed, and
    then the new value is validated and appended. *)
Lemma edit_phone_absent (self : Record_) (old_phone new_phone : str) :
  find_in (phones self) old_phone = None ->
  edit_phone old_phone new_phone self = (Ok tt, self).
Proof.
  intros N. unfold edit_phone, find_phone, mbind, get_phones, mret.
  now rewrite N.
Qed.

Lemma edit_phone_found (self : Record_) (old_phone new_phone : str) p :
  find_in (phones self) old_phone = Some p ->
  exists l1 l2,
    phones self = l1 ++ p :: l2
    /\ find_in l1 old_phone = None
    /\ edit_phone old_phone new_phone self
       = add_phone new_phone
           (mkRecord (name self) (l1 ++ l2) (birthday self)).
Proof.
  intros F. destruct (list_remove_found _ _ F) as (l1 & l2 & E & N & Rm).
  exists l1, l2. split; [exact E|]. split; [exact N|].
  unfold edit_phone, find_phone, phones_remove, mbind, get_phones, mret,
    lift, set_phones.
  rewrite F, Rm. reflexivity.
Qed.

Lemma edit_phone_invalid (self : Record_) (old_phone new_phone : str) p :
  find_in (phones self) old_phone = Some p ->
  ~ valid_phone new_phone ->
  exists l1 l2,
    phones self = l1 ++ p :: l2
    /\ edit_phone old_phone new_phone self
       = (Raise (ValueError InvalidPhoneFormat),
          mkRecord (name self) (l1 ++ l2) (birthday self)).
Proof.
  intros F V.
  destruct (@edit_phone_found self old_phone new_phone p F)
    as (l1 & l2 & E & _ & Ed).
  exists l1, l2. split; [exact E|].
  rewrite Ed. now apply add_phone_rejects.
Qed.

(** C4: the phone that was to be edited is gone when the new value is
    rejected. *)
Lemma edit_phone_invalid_drops_old :
  let self := mkRecord (mkField (cps "Alice"))
                       [mkField (cps "0501234567")] None in
  ~ valid_phone (cps "12345")
  /\ edit_phone (cps "0501234567") (cps "12345") self
     = (Raise (ValueError InvalidPhoneFormat),
        mkRecord (mkField (cps "Alice")) [] None).
Proof.
  simpl. split.
  - intros [L _]. discriminate L.
  - vm_compute. reflexivity.
Qed.

(** C9 (amended). [Record(name)] succeeds for every string, the empty one
    included, and gives a record with that name, no phones and no
    birthday. *)
Theorem Record_init_total (n : str) :
  exists r,
    Record_init n = Ok r
    /\ value (name r) = n /\ phones r = [] /\ birthday r = None.
Proof. eexists. repeat split. Qed.

(** C9, as stated, fails: the empty name is accepted. *)
Lemma Record_init_empty_name :
  Record_init (cps "") = Ok (mkRecord (mkField []) [] None).
Proof. reflexivity. Qed.

(** *** The directory *)

Lemma entries_under_absent d k :
  ~ In k (dict_keys d) -> entries_under d k = [].
Proof.
  induction d as [|[k' v'] d IH]; simpl; [reflexivity|].
  intros H. destruct (str_eqb k' k) eqn:E.
  - apply str_eqb_eq in E. tauto.
  - apply IH. tauto.
Qed.

Lemma dict_set_keys d k v :
  dict_keys (dict_set d k v)
  = if dict_contains d k then dict_keys d else dict_keys d ++ [k].
Proof.
  unfold dict_contains.
  induction d as [|[k' v'] d IH]; simpl; [reflexivity|].
  destruct (str_eqb k' k); simpl; [reflexivity|].
  rewrite IH. now destruct (dict_get d k).
Qed.

Lemma dict_contains_keys d k :
  dict_contains d k = true <-> In k (dict_keys d).
Proof.
  unfold dict_contains.
  induction d as [|[k' v'] d IH]; simpl.
  - split; [discriminate|tauto].
  - destruct (str_eqb k' k) eqn:E.
    + apply str_eqb_eq in E. tauto.
    + apply str_eqb_neq in E. rewrite IH. tauto.
Qed.

Lemma dict_set_NoDup d k v :
  NoDup (dict_keys d) -> NoDup (dict_keys (dict_set d k v)).
Proof.
  intros H. rewrite dict_set_keys.
  destruct (dict_contains d k) eqn:E; [exact H|].
  apply NoDup_app; [exact H|repeat constructor; tauto|].
  intros x Hx [<-|[]].
  apply dict_contains_keys in Hx. congruence.
Qed.

Lemma dict_get_set d k v : dict_get (dict_set d k v) k = Some v.
Proof.
  induction d as [|[k' v'] d IH]; simpl.
  - now rewrite str_eqb_refl.
  - destruct (str_eqb k' k) eqn:E; simpl; now rewrite E.
Qed.

Lemma dict_set_entries d k v :
  NoDup (dict_keys d) -> entries_under (dict_set d k v) k = [(k, v)].
Proof.
  induction d as [|[k' v'] d IH]; simpl; intros H.
  - now rewrite str_eqb_refl.
  - inversion H; subst. destruct (str_eqb k' k) eqn:E; simpl; rewrite E.
    + apply str_eqb_eq in E. subst k'.
      f_equal. now apply entries_under_absent.
    + now apply IH.
Qed.

Lemma delete_absent (book : AddressBook) (n : str) :
  find book n = None -> delete book n = book.
Proof.
  unfold find, delete, dict_contains. now intros ->.
Qed.

Lemma find_add_record (book : AddressBook) (r : Record_) :
  find (add_record book r) (value (name r)) = Some r.
Proof. apply dict_get_set. Qed.

(** C7. In a directory, [add_record] of one record and then of another
    with the same name leaves exactly one entry under that name, and it
    holds the second record; neither call can fail, and the keys stay
    unique. *)
Theorem add_record_last_write_wins
        (book : AddressBook) (r1 r2 : Record_) :
  NoDup (dict_keys (data book)) ->
  value (name r1) = value (name r2) ->
  let book' := add_record (add_record book r1) r2 in
  entries_under (data book') (value (name r2)) = [(value (name r2), r2)]
  /\ find book' (value (name r2)) = Some r2
  /\ NoDup (dict_keys (data book')).
Proof.
  intros H E. simpl. unfold find, add_record. simpl.
  repeat split.
  - apply dict_set_entries. now apply dict_set_NoDup.
  - apply dict_get_set.
  - now do 2 apply dict_set_NoDup.
Qed.

Lemma add_record_last_write_wins_witness :
  let alice1 := mkRecord (mkField (cps "Alice"))
                         [mkField (cps "0501234567")] None in
  let alice2 := mkRecord (mkField (cps "Alice"))
                         [mkField (cps "0679876543")] None in
  let bob := mkRecord (mkField (cps "Bob")) [] None in
  let book' :=
    add_record (add_record (mkBook [(cps "Bob", bob)]) alice1) alice2 in
  entries_under (data book') (cps "Alice") = [(cps "Alice", alice2)]
  /\ find book' (cps "Alice") = Some alice2
  /\ NoDup (dict_keys (data book')).
Proof.
  intros alice1 alice2 bob.
  apply (@add_record_last_write_wins (mkBook [(cps "Bob", bob)])
           alice1 alice2).
  - simpl. repeat constructor. simpl. tauto.
  - reflexivity.
Defined.

(** *** The date pattern *)

Ltac invert_matches :=
  repeat match goal with
    | H : Matches (Re.Grp _ _) _ _ _ |- _ => inversion H; clear H; subst
    | H : Matches (Re.Alt _ _) _ _ _ |- _ => inversion H; clear H; subst
    | H : Matches (Re.Cat _ _) _ _ _ |- _ => inversion H; clear H; subst
    | H : Matches (Re.Chr _) _ _ _ |- _ => inversion H; clear H; subst
    | H : Matches (Re.Rng _ _) _ _ _ |- _ => inversion H; clear H; subst
    | H : Matches Re.Dig _ _ _ |- _ => inversion H; clear H; subst
    end.

Ltac bool_to_prop :=
  repeat rewrite ?andb_true_iff, ?orb_true_iff, ?N.leb_le, ?N.eqb_eq in *.

Lemma M_cat1 r1 r2 a p2 g g1 g2 :
  Matches r1 [a] g g1 -> Matches r2 p2 g1 g2 ->
  Matches (Re.Cat r1 r2) (a :: p2) g g2.
Proof. intros H1 H2. exact (M_cat H1 H2). Qed.

Ltac build_match :=
  lazymatch goal with
  | |- Matches (Re.Grp _ _) _ _ _ => apply M_grp; build_match
  | |- Matches (Re.Alt _ _) _ _ _ =>
      first [ solve [apply M_alt_l; build_match]
            | apply M_alt_r; build_match ]
  | |- Matches (Re.Cat _ _) (_ :: _) _ _ =>
      eapply M_cat1; [build_match | build_match]
  | |- Matches (Re.Chr _) _ _ _ => apply M_chr
  | |- Matches (Re.Rng _ _) _ _ _ => apply M_rng; simpl; lia
  | |- Matches Re.Dig _ _ _ => apply M_dig; assumption
  end.

Lemma matches_re_d p g g' :
  Matches Datetime.re_d p g g'
  <-> (day_field p = true /\ g' = ("d"%string, p) :: g).
Proof.
  split.
  - intros H. unfold Datetime.re_d in H. simpl Datetime.chr in H.
    invert_matches; (split; [|reflexivity]);
      unfold day_field, in_range, is_chr; simpl;
      bool_to_prop; try lia;
      match goal with
      | H : Unicode.is_decimal _ = true |- _ => rewrite H; intuition lia
      end.
  - intros [H ->]. destruct p as [|a [|b [|c p]]]; try discriminate.
    + unfold day_field, in_range, is_chr in H. simpl in H. bool_to_prop.
      unfold Datetime.re_d. simpl Datetime.chr. build_match.
    + unfold day_field, in_range, is_chr in H. simpl in H. bool_to_prop.
      unfold Datetime.re_d. simpl Datetime.chr.
      destruct H as [[[[-> H]|[H D]]|[-> H]]|[-> H]]; build_match.
Qed.

Lemma matches_re_m p g g' :
  Matches Datetime.re_m p g g'
  <-> (month_field p = true /\ g' = ("m"%string, p) :: g).
Proof.
  split.
  - intros H. unfold Datetime.re_m in H. simpl Datetime.chr in H.
    invert_matches; (split; [|reflexivity]);
      unfold month_field, in_range, is_chr; simpl;
      bool_to_prop; lia.
  - intros [H ->]. destruct p as [|a [|b [|c p]]]; try discriminate.
    + unfold month_field, in_range, is_chr in H. simpl in H. bool_to_prop.
      unfold Datetime.re_m. simpl Datetime.chr. build_match.
    + unfold month_field, in_range, is_chr in H. simpl in H. bool_to_prop.
      unfold Datetime.re_m. simpl Datetime.chr.
      destruct H as [[-> H]|[-> H]]; build_match.
Qed.

Lemma matches_re_Y p g g' :
  Matches Datetime.re_Y p g g'
  <-> (year_field p = true /\ g' = ("Y"%string, p) :: g).
Proof.
  split.
  - intros H. unfold Datetime.re_Y in H.
    invert_matches. split; [|reflexivity]. simpl.
    repeat match goal with
           | H : Unicode.is_decimal _ = true |- _ => rewrite H; clear H
           end.
    reflexivity.
  - intros [H ->]. destruct p as [|a [|b [|c [|d [|e p]]]]]; try discriminate.
    unfold year_field in H. bool_to_prop. destruct H as [[[? ?] ?] ?].
    unfold Datetime.re_Y. build_match.
Qed.

Lemma matches_format_regex p g g' :
  Matches Datetime.format_regex p g g'
  <-> exists D M Y,
      p = D ++ [dot] ++ M ++ [dot] ++ Y
      /\ day_field D = true /\ month_field M = true /\ year_field Y = true
      /\ g' = ("Y"%string, Y) :: ("m"%string, M) :: ("d"%string, D) :: g.
Proof.
  unfold Datetime.format_regex. split.
  - intros H.
    inversion H as [| | |? ? D p1 ? g1 ? HD H1| | | | |]; subst; clear H.
    inversion H1 as [| | |? ? ? p2 ? g2 ? Hd1 H2| | | | |]; subst; clear H1.
    inversion H2 as [| | |? ? M p3 ? g3 ? HM H3| | | | |]; subst; clear H2.
    inversion H3 as [| | |? ? ? Y ? g4 ? Hd2 HY| | | | |]; subst; clear H3.
    inversion Hd1; subst. inversion Hd2; subst.
    apply matches_re_d in HD. destruct HD as [HD ->].
    apply matches_re_m in HM. destruct HM as [HM ->].
    apply matches_re_Y in HY. destruct HY as [HY ->].
    exists D, M, Y. auto.
  - intros (D & M & Y & -> & HD & HM & HY & ->).
    apply M_cat with (g1 := ("d"%string, D) :: g);
      [apply matches_re_d; auto|].
    apply M_cat with (g1 := ("d"%string, D) :: g); [constructor|].
    apply M_cat with (g1 := ("m"%string, M) :: ("d"%string, D) :: g);
      [apply matches_re_m; auto|].
    apply M_cat with (g1 := ("m"%string, M) :: ("d"%string, D) :: g);
      [constructor|].
    apply matches_re_Y; auto.
Qed.

(** A text splits at its first dot in one way only. *)
Lemma split_at_dot (D D' t t' : str) :
  ~ In dot D -> ~ In dot D' ->
  D ++ dot :: t = D' ++ dot :: t' -> D = D' /\ t = t'.
Proof.
  revert D'. induction D as [|a D IH]; intros [|b D'] H H' E; simpl in *.
  - inversion E; auto.
  - inversion E; subst. tauto.
  - inversion E; subst. tauto.
  - inversion E; subst. destruct (IH D') as [-> ->]; auto.
Qed.

Lemma dot_not_decimal : Unicode.is_decimal dot = false.
Proof. reflexivity. Qed.

Lemma day_field_no_dot D : day_field D = true -> ~ In dot D.
Proof.
  destruct D as [|a [|b [|c D]]]; try discriminate;
    unfold day_field, in_range, is_chr; simpl; bool_to_prop;
    intros H [E|R]; try (destruct R as [E|[]]); try (now destruct R);
    try (unfold dot in E; simpl in E; lia).
  subst b. destruct H as [[[H|[_ H]]|H]|H];
    try (unfold dot in H; simpl in H; lia).
  rewrite dot_not_decimal in H. discriminate.
Qed.

Lemma month_field_no_dot M : month_field M = true -> ~ In dot M.
Proof.
  destruct M as [|a [|b [|c M]]]; try discriminate;
    unfold month_field, in_range, is_chr; simpl; bool_to_prop;
    intros H [E|R]; try (destruct R as [E|[]]); try (now destruct R);
    unfold dot in E; simpl in E; lia.
Qed.

Lemma year_field_length Y : year_field Y = true -> length Y = 4%nat.
Proof.
  destruct Y as [|a [|b [|c [|d [|e Y]]]]]; try discriminate. reflexivity.
Qed.

Lemma app_same_length (A : Type) (x x' y y' : list A) :
  length x = length x' -> x ++ y = x' ++ y' -> x = x' /\ y = y'.
Proof.
  revert x'. induction x as [|a x IH]; intros [|a' x'] L E;
    try discriminate; simpl in *.
  - auto.
  - inversion E; subst. destruct (IH x') as [-> ->]; auto.
Qed.

(** The three fields of a date text are determined by the text. *)
Lemma date_text_unique D M Y D' M' Y' rest rest' :
  day_field D = true -> month_field M = true -> year_field Y = true ->
  day_field D' = true -> month_field M' = true -> year_field Y' = true ->
  (D ++ [dot] ++ M ++ [dot] ++ Y) ++ rest
  = (D' ++ [dot] ++ M' ++ [dot] ++ Y') ++ rest' ->
  D = D' /\ M = M' /\ Y = Y' /\ rest = rest'.
Proof.
  intros HD HM HY HD' HM' HY' E.
  repeat (rewrite <- ?app_assoc in E; simpl in E).
  apply split_at_dot in E; auto using day_field_no_dot.
  destruct E as [-> E].
  apply split_at_dot in E; auto using month_field_no_dot.
  destruct E as [-> E].
  apply year_field_length in HY, HY'.
  apply app_same_length in E; [|congruence]. tauto.
Qed.

(** [re.match] with the date pattern finds the three fields, and nothing
    else. *)
Lemma rmatch_format_regex s rest found :
  Re.rmatch Datetime.format_regex s = Some (rest, found)
  <-> exists D M Y,
      s = (D ++ [dot] ++ M ++ [dot] ++ Y) ++ rest
      /\ day_field D = true /\ month_field M = true /\ year_field Y = true
      /\ found = [("Y"%string, Y); ("m"%string, M); ("d"%string, D)].
Proof.
  unfold Re.rmatch. split.
  - intros H. apply run_sound in H.
    destruct H as (p & s' & g' & -> & HM & H). inversion H; subst.
    apply matches_format_regex in HM.
    destruct HM as (D & M & Y & -> & HD & HMo & HY & ->).
    exists D, M, Y. auto.
  - intros (D & M & Y & -> & HD & HM & HY & ->).
    assert (HMt : Matches Datetime.format_regex
                    (D ++ [dot] ++ M ++ [dot] ++ Y) []
                    [("Y"%string, Y); ("m"%string, M); ("d"%string, D)]).
    { apply matches_format_regex. exists D, M, Y. auto. }
    (* some match is found ... *)
    pose proof (@run_complete _ _ _ _ _ HMt rest
                  (fun s' g => Some (s', g)) _ eq_refl) as [x Hx].
    rewrite Hx. f_equal.
    (* ... and it can only be this one *)
    apply run_sound in Hx.
    destruct Hx as (p & s' & g' & E & HM2 & Hx). inversion Hx; subst x.
    apply matches_format_regex in HM2.
    destruct HM2 as (D' & M' & Y' & -> & HD' & HM' & HY' & ->).
    destruct (date_text_unique _ _ _ _ _ _ _ _ HD HM HY HD' HM' HY' E)
      as (-> & -> & -> & ->).
    reflexivity.
Qed.

(** *** [int] on the fields *)

Lemma blank_not_decimal : Unicode.is_decimal blank = false.
Proof. reflexivity. Qed.

Lemma decimal_not_blank c : Unicode.is_decimal c = true -> (c =? 32)%N = false.
Proof.
  intros H. destruct (N.eqb_spec c 32); [|reflexivity].
  subst c. discriminate H.
Qed.

Lemma lstrip_decimal (t : str) :
  Forall (fun c => Unicode.is_decimal c = true) t -> Datetime.lstrip t = t.
Proof.
  destruct 1 as [|c t H _]; simpl; [reflexivity|].
  now rewrite (decimal_not_blank _ H).
Qed.

Lemma strip_decimal (t : str) :
  Forall (fun c => Unicode.is_decimal c = true) t -> Datetime.strip t = t.
Proof.
  intros H. unfold Datetime.strip. rewrite (lstrip_decimal H).
  rewrite lstrip_decimal by now apply Forall_rev.
  apply rev_involutive.
Qed.

Lemma digits_to_int_fold (t : str) :
  Forall (fun c => Unicode.is_decimal c = true) t ->
  forall acc, Datetime.digits_to_int acc t = Some (fold_left digit_step t acc).
Proof.
  induction 1 as [|c t H _ IH]; intros acc; simpl; [reflexivity|].
  unfold Unicode.is_decimal in H. unfold digit_step at 2.
  destruct (Unicode.digit_value c); [apply IH|discriminate].
Qed.

Lemma int_digits (t : str) :
  t <> [] -> Forall (fun c => Unicode.is_decimal c = true) t ->
  Datetime.int t = Ok (field_number t).
Proof.
  intros N H. unfold Datetime.int. rewrite (strip_decimal H).
  destruct t; [congruence|]. now rewrite (digits_to_int_fold H).
Qed.

Lemma int_blank_digit (b : codepoint) :
  Unicode.is_decimal b = true ->
  Datetime.int [blank; b] = Ok (field_number [blank; b]).
Proof.
  intros H. unfold Datetime.int, Datetime.strip. simpl.
  rewrite (decimal_not_blank _ H). simpl.
  rewrite (decimal_not_blank _ H). simpl.
  unfold Unicode.is_decimal in H. unfold field_number. simpl.
  unfold digit_step at 1.
  destruct (Unicode.digit_value b); [reflexivity|discriminate].
Qed.

Lemma in_range_decimal lo hi c :
  in_range lo hi c = true ->
  (48 <= Datetime.chr lo)%N -> (Datetime.chr hi <= 57)%N ->
  Unicode.is_decimal c = true.
Proof.
  unfold in_range. intros H L U. apply ascii_digit_is_decimal.
  unfold Unicode.is_ascii_digit. bool_to_prop. lia.
Qed.

Ltac field_digits :=
  repeat match goal with
    | H : in_range _ _ _ = true |- _ =>
        apply in_range_decimal in H; [|simpl; lia|simpl; lia]
    | H : is_chr _ ?a = true |- _ =>
        unfold is_chr in H; simpl in H; apply N.eqb_eq in H; subst a
    end.

Lemma day_field_int D :
  day_field D = true -> Datetime.int D = Ok (field_number D).
Proof.
  destruct D as [|a [|b [|c D]]]; try discriminate; unfold day_field.
  - intros H. field_digits. apply int_digits; [discriminate|auto].
  - rewrite !orb_true_iff, !andb_true_iff.
    intros [[[[Ha Hb]|[Ha Hb]]|[Ha Hb]]|[Ha Hb]]; field_digits;
      try solve [apply int_digits; [discriminate|repeat constructor; auto]].
    now apply int_blank_digit.
Qed.

Lemma month_field_int M :
  month_field M = true -> Datetime.int M = Ok (field_number M).
Proof.
  destruct M as [|a [|b [|c M]]]; try discriminate; unfold month_field.
  - intros H. field_digits. apply int_digits; [discriminate|auto].
  - rewrite !orb_true_iff, !andb_true_iff.
    intros [[Ha Hb]|[Ha Hb]]; field_digits;
      (apply int_digits; [discriminate|repeat constructor; auto]).
Qed.

Lemma year_field_int Y :
  year_field Y = true -> Datetime.int Y = Ok (field_number Y).
Proof.
  destruct Y as [|a [|b [|c [|d [|e Y]]]]]; try discriminate.
  unfold year_field. rewrite !andb_true_iff. intros [[[? ?] ?] ?].
  apply int_digits; [discriminate|repeat constructor; auto].
Qed.

(** *** [strptime] *)

Lemma check_date_fields_iff y m d :
  Datetime._check_date_fields y m d = Ok tt <-> real_date y m d.
Proof.
  unfold Datetime._check_date_fields, real_date,
    Datetime.MINYEAR, Datetime.MAXYEAR.
  destruct (Z.leb_spec 1 y), (Z.leb_spec y 9999), (Z.leb_spec 1 m),
    (Z.leb_spec m 12), (Z.leb_spec 1 d),
    (Z.leb_spec d (Datetime._days_in_month y m)); simpl;
    split; try discriminate; try tauto; try lia.
Qed.

Lemma new_midnight y m d :
  real_date y m d -> Datetime.new y m d 0 0 0 0 = Ok (midnight y m d).
Proof.
  intros H. apply check_date_fields_iff in H.
  unfold Datetime.new. rewrite H. reflexivity.
Qed.

Lemma strptime_fields D M Y :
  day_field D = true -> month_field M = true -> year_field Y = true ->
  Datetime.strptime (D ++ [dot] ++ M ++ [dot] ++ Y)
  = match Datetime._check_date_fields
            (field_number Y) (field_number M) (field_number D) with
    | Ok _ => Ok (midnight (field_number Y) (field_number M) (field_number D))
    | Raise e => Raise e
    end.
Proof.
  intros HD HM HY. unfold Datetime.strptime.
  assert (E : Re.rmatch Datetime.format_regex (D ++ [dot] ++ M ++ [dot] ++ Y)
              = Some ([], [("Y"%string, Y); ("m"%string, M); ("d"%string, D)])).
  { apply rmatch_format_regex. exists D, M, Y.
    rewrite app_nil_r. auto. }
  rewrite E. unfold Datetime.group_int. simpl.
  rewrite (day_field_int _ HD), (month_field_int _ HM), (year_field_int _ HY).
  simpl.
  destruct (Datetime._check_date_fields _ _ _) as [[]|e] eqn:C; simpl;
    [|reflexivity].
  apply check_date_fields_iff in C. now apply new_midnight.
Qed.

Lemma strptime_ok_iff (s : str) (t : Datetime.datetime) :
  Datetime.strptime s = Ok t
  <-> exists D M Y,
      s = D ++ [dot] ++ M ++ [dot] ++ Y
      /\ day_field D = true /\ month_field M = true /\ year_field Y = true
      /\ real_date (field_number Y) (field_number M) (field_number D)
      /\ t = midnight (field_number Y) (field_number M) (field_number D).
Proof.
  split.
  - intros H. assert (H0 := H). unfold Datetime.strptime in H0.
    destruct (Re.rmatch Datetime.format_regex s) as [[rest found]|] eqn:E;
      [|discriminate].
    destruct rest; [|discriminate]. clear H0.
    apply rmatch_format_regex in E.
    destruct E as (D & M & Y & E & HD & HM & HY & _).
    rewrite app_nil_r in E. subst s.
    rewrite (strptime_fields _ _ _ HD HM HY) in H.
    destruct (Datetime._check_date_fields _ _ _) as [[]|e] eqn:C;
      [|discriminate].
    apply check_date_fields_iff in C. inversion H.
    exists D, M, Y. repeat (split; [solve [auto]|]). reflexivity.
  - intros (D & M & Y & -> & HD & HM & HY & R & ->).
    rewrite (strptime_fields _ _ _ HD HM HY).
    apply check_date_fields_iff in R. now rewrite R.
Qed.

Lemma check_date_fields_raise y m d e :
  Datetime._check_date_fields y m d = Raise e ->
  e = ValueError FieldOutOfRange.
Proof.
  unfold Datetime._check_date_fields.
  repeat match goal with
         | |- context [if ?b then _ else _] => destruct b
         end; intros H; now inversion H.
Qed.

Lemma strptime_raises s e :
  Datetime.strptime s = Raise e -> exists m, e = ValueError m.
Proof.
  intros H. assert (H0 := H). unfold Datetime.strptime in H0.
  destruct (Re.rmatch Datetime.format_regex s) as [[rest found]|] eqn:E;
    [|inversion H0; eauto].
  destruct rest; [|inversion H0; eauto]. clear H0.
  apply rmatch_format_regex in E.
  destruct E as (D & M & Y & E & HD & HM & HY & _).
  rewrite app_nil_r in E. subst s.
  rewrite (strptime_fields _ _ _ HD HM HY) in H.
  destruct (Datetime._check_date_fields _ _ _) eqn:C; [discriminate|].
  inversion H; subst. apply check_date_fields_raise in C. eauto.
Qed.

Lemma Birthday_init_ok_iff (s : str) (b : Birthday) :
  Birthday_init s = Ok b <-> Datetime.strptime s = Ok (value b).
Proof.
  unfold Birthday_init. destruct (Datetime.strptime s) as [t|[m|]] eqn:E.
  - destruct b as [t']. simpl. split; intros H; inversion H; reflexivity.
  - split; discriminate.
  - split; discriminate.
Qed.



(** *** [strftime] and back *)

Lemma all_from_spec P len :
  forall lo, all_from P lo len = true ->
  forall d, (lo <= d < lo + Z.of_nat len)%Z -> P d = true.
Proof.
  induction len as [|k IH]; intros lo H d Hd; [lia|].
  simpl in H. apply andb_true_iff in H. destruct H as [H1 H2].
  destruct (Z.eq_dec d lo) as [->|N]; [exact H1|].
  apply (IH (lo + 1)%Z H2). lia.
Qed.

Lemma padded_digit_ascii (n : Z) :
  Unicode.is_ascii_digit (48 + Z.to_N (n mod 10))%N = true.
Proof.
  pose proof (Z.mod_pos_bound n 10 ltac:(lia)).
  unfold Unicode.is_ascii_digit. apply andb_true_iff.
  split; apply N.leb_le; lia.
Qed.

Lemma padded_digit_value (n : Z) :
  Unicode.digit_value (48 + Z.to_N (n mod 10))%N = Some (n mod 10)%Z.
Proof.
  pose proof (Z.mod_pos_bound n 10 ltac:(lia)).
  rewrite (ascii_digit_value _ (padded_digit_ascii n)). f_equal. lia.
Qed.

Lemma zero_padded_ascii (w : nat) :
  forall n, Forall (fun c => Unicode.is_ascii_digit c = true)
                   (Datetime.zero_padded w n).
Proof.
  induction w as [|w IH]; intros n; simpl; [constructor|].
  apply Forall_app. split; [apply IH|].
  constructor; [apply padded_digit_ascii|constructor].
Qed.

Lemma zero_padded_fold (w : nat) :
  forall n acc,
    fold_left digit_step (Datetime.zero_padded w n) acc
    = (acc * 10 ^ Z.of_nat w + n mod 10 ^ Z.of_nat w)%Z.
Proof.
  induction w as [|w IH]; intros n acc.
  - simpl. rewrite Z.mod_1_r. lia.
  - cbn [Datetime.zero_padded]. rewrite fold_left_app, IH. cbn [fold_left].
    unfold digit_step. rewrite padded_digit_value.
    rewrite Nat2Z.inj_succ, Z.pow_succ_r by lia.
    rewrite (Z.rem_mul_r n 10 (10 ^ Z.of_nat w)) by lia. lia.
Qed.

Lemma zero_padded_number (w : nat) (n : Z) :
  (0 <= n < 10 ^ Z.of_nat w)%Z ->
  field_number (Datetime.zero_padded w n) = n.
Proof.
  intros H. change (fold_left digit_step (Datetime.zero_padded w n) 0%Z = n).
  rewrite zero_padded_fold, Z.mod_small by exact H. lia.
Qed.

Lemma zero_padded_day d :
  (1 <= d <= 31)%Z -> day_field (Datetime.zero_padded 2 d) = true.
Proof.
  intros H.
  apply (@all_from_spec (fun d => day_field (Datetime.zero_padded 2 d))
           31 1); [vm_compute; reflexivity|lia].
Qed.

Lemma zero_padded_month m :
  (1 <= m <= 12)%Z -> month_field (Datetime.zero_padded 2 m) = true.
Proof.
  intros H.
  apply (@all_from_spec (fun m => month_field (Datetime.zero_padded 2 m))
           12 1); [vm_compute; reflexivity|lia].
Qed.

Lemma zero_padded_year y :
  year_field (Datetime.zero_padded 4 y) = true.
Proof.
  pose proof (zero_padded_ascii 4 y) as H. simpl in *.
  repeat match goal with
         | H : Forall _ (_ :: _) |- _ => inversion H; clear H; subst
         end.
  repeat match goal with
         | H : Unicode.is_ascii_digit _ = true |- _ =>
             apply ascii_digit_is_decimal in H; rewrite H; clear H
         end.
  reflexivity.
Qed.

Lemma days_in_month_le_31 y m :
  (1 <= m <= 12)%Z -> (28 <= Datetime._days_in_month y m <= 31)%Z.
Proof.
  intros H. unfold Datetime._days_in_month.
  destruct ((m =? 2)%Z && Datetime._is_leap y); [lia|].
  assert (m = 1 \/ m = 2 \/ m = 3 \/ m = 4 \/ m = 5 \/ m = 6 \/ m = 7
          \/ m = 8 \/ m = 9 \/ m = 10 \/ m = 11 \/ m = 12)%Z as C by lia.
  repeat (destruct C as [->|C]; [vm_compute; split; discriminate|]).
  subst m. vm_compute; split; discriminate.
Qed.

Lemma strptime_strftime (t : Datetime.datetime) :
  real_date (Datetime.year t) (Datetime.month t) (Datetime.day t) ->
  Datetime.strptime (Datetime.strftime Datetime.ZeroPadded t)
  = Ok (midnight (Datetime.year t) (Datetime.month t) (Datetime.day t)).
Proof.
  intros R. pose proof R as (Hy & Hm & Hd).
  pose proof (days_in_month_le_31 (Datetime.year t) Hm) as Hdim.
  unfold Datetime.strftime, Datetime.year_text.
  change [Datetime.chr "."] with [dot].
  rewrite strptime_fields
    by (first [apply zero_padded_day | apply zero_padded_month
              | apply zero_padded_year]; lia).
  rewrite !zero_padded_number by (simpl; lia).
  apply check_date_fields_iff in R. now rewrite R.
Qed.

Lemma strftime_padded_strict (t : Datetime.datetime) :
  strict_dmY (Datetime.strftime Datetime.ZeroPadded t) = true.
Proof.
  pose proof (zero_padded_year (Datetime.year t)) as HY.
  unfold Datetime.strftime, Datetime.year_text.
  cbn [Datetime.zero_padded app] in *.
  unfold strict_dmY.
  apply andb_true_iff. split; [|exact HY].
  rewrite !(ascii_digit_is_decimal _ (padded_digit_ascii _)).
  reflexivity.
Qed.

Lemma zero_padded_length w : forall n, length (Datetime.zero_padded w n) = w.
Proof.
  induction w as [|w IH]; intros n; simpl; [reflexivity|].
  rewrite length_app, IH. simpl. lia.
Qed.

Lemma drop_zeros_length s : (length (Datetime.drop_zeros s) <= length s)%nat.
Proof.
  induction s as [|c s IH]; simpl; [lia|].
  destruct (c =? 48)%N; simpl; lia.
Qed.

Lemma strict_dmY_length s : strict_dmY s = true -> length s = 10%nat.
Proof.
  do 11 (destruct s as [|? s]; try discriminate). reflexivity.
Qed.

(** Without padding the year has four digits from the year 1000 on. *)
Lemma year_text_unpadded y :
  (1 <= y <= 9999)%Z ->
  if (1000 <=? y)%Z
  then Datetime.year_text Datetime.Unpadded y = Datetime.zero_padded 4 y
  else (length (Datetime.year_text Datetime.Unpadded y) < 4)%nat.
Proof.
  intros H. unfold Datetime.year_text.
  cbn [Datetime.zero_padded app Datetime.drop_zeros].
  destruct (Z.leb_spec 1000 y) as [L|L].
  - replace (48 + Z.to_N ((y / 10 / 10 / 10) mod 10) =? 48)%N with false;
      [reflexivity|].
    symmetry. apply N.eqb_neq.
    assert (1 <= (y / 10 / 10 / 10) mod 10)%Z
      by (Z.to_euclidean_division_equations; lia).
    lia.
  - replace (48 + Z.to_N ((y / 10 / 10 / 10) mod 10) =? 48)%N with true.
    + repeat match goal with
             | |- context [if ?b then _ else _] => destruct b
             end; simpl; lia.
    + symmetry. apply N.eqb_eq.
      assert ((y / 10 / 10 / 10) mod 10 = 0)%Z
        by (Z.to_euclidean_division_equations; lia).
      lia.
Qed.

Lemma strftime_strict_iff libc (t : Datetime.datetime) :
  (1 <= Datetime.year t <= 9999)%Z ->
  (strict_dmY (Datetime.strftime libc t) = true
   <-> libc = Datetime.ZeroPadded \/ (1000 <= Datetime.year t)%Z).
Proof.
  intros Y. destruct libc.
  - split; [auto|]. intros _. apply strftime_padded_strict.
  - pose proof (year_text_unpadded Y) as U.
    destruct (Z.leb_spec 1000 (Datetime.year t)) as [L|L].
    + split; [auto|]. intros _.
      unfold Datetime.strftime. rewrite U.
      apply (strftime_padded_strict t).
    + split; [|intros [?|?]; [discriminate|lia]].
      intros S. apply strict_dmY_length in S.
      unfold Datetime.strftime in S.
      rewrite !length_app, !zero_padded_length in S.
      change (length [Datetime.chr "."]) with 1%nat in S. exfalso. lia.
Qed.

(** A year before 1000, written without padding, has fewer than four
    digits, and no such text is a date text. *)
Lemma strftime_short_year_rejected (y m d : Z) :
  real_date y m d -> (y < 1000)%Z ->
  Birthday_init (Datetime.strftime Datetime.Unpadded (midnight y m d))
  = Raise (ValueError InvalidDateFormat).
Proof.
  intros R L. pose proof R as (Hy & Hm & Hd).
  pose proof (days_in_month_le_31 y Hm) as Hdim.
  pose proof (year_text_unpadded Hy) as U.
  replace (1000 <=? y)%Z with false in U
    by (symmetry; now apply Z.leb_gt).
  unfold Birthday_init.
  destruct (Datetime.strptime
              (Datetime.strftime Datetime.Unpadded (midnight y m d)))
    as [t|e] eqn:E.
  - exfalso. apply strptime_ok_iff in E.
    destruct E as (D & M & Y & E & HD & HM & HY & _).
    unfold Datetime.strftime in E. simpl in E.
    change (Datetime.chr ".") with dot in E.
    change (Datetime.zero_padded 2 d ++ dot ::
              Datetime.zero_padded 2 m ++ dot ::
              Datetime.year_text Datetime.Unpadded y
            = D ++ dot :: M ++ dot :: Y) in E.
    apply split_at_dot in E;
      [|apply day_field_no_dot, zero_padded_day; lia
       |now apply day_field_no_dot].
    destruct E as [_ E].
    apply split_at_dot in E;
      [|apply month_field_no_dot, zero_padded_month; lia
       |now apply month_field_no_dot].
    destruct E as [_ E].
    apply year_field_length in HY. rewrite <- E in HY. lia.
  - apply strptime_raises in E. destruct E as [msg ->]. reflexivity.
Qed.

(** C8 (amended). For every valid calendar date whose text under
    ["%d.%m.%Y"] has the form DD.MM.YYYY, constructing a [Birthday] from
    that text gives the same date back.  The text has that form for every
    date when the year is written with four digits, as documented, and
    for the dates from the year 1000 on in any case.  For the other
    dates, those before the year 1000 written without padding, the text
    is rejected with the invalid-date-format [ValueError]. *)
Theorem Birthday_strftime_roundtrip
        (libc : Datetime.year_format) (y m d : Z) :
  real_date y m d ->
  (strict_dmY (Datetime.strftime libc (midnight y m d)) = true ->
   Birthday_init (Datetime.strftime libc (midnight y m d))
   = Ok (mkField (midnight y m d)))
  /\ (strict_dmY (Datetime.strftime libc (midnight y m d)) = true
      <-> libc = Datetime.ZeroPadded \/ (1000 <= y)%Z)
  /\ (strict_dmY (Datetime.strftime libc (midnight y m d)) = false ->
      Birthday_init (Datetime.strftime libc (midnight y m d))
      = Raise (ValueError InvalidDateFormat)).
Proof.
  intros R.
  assert (Y : (1 <= Datetime.year (midnight y m d) <= 9999)%Z) by apply R.
  assert (SI : strict_dmY (Datetime.strftime libc (midnight y m d)) = true
               <-> libc = Datetime.ZeroPadded \/ (1000 <= y)%Z)
    by exact (strftime_strict_iff libc _ Y).
  split; [|split; [exact SI|]].
  - intros S. apply SI in S.
    assert (E : Datetime.strftime libc (midnight y m d)
                = Datetime.strftime Datetime.ZeroPadded (midnight y m d)).
    { destruct S as [->|L]; [reflexivity|]. destruct libc; [reflexivity|].
      pose proof (year_text_unpadded Y) as U. simpl in L, U.
      replace (1000 <=? y)%Z with true in U
        by (symmetry; now apply Z.leb_le).
      unfold Datetime.strftime. simpl. now rewrite U. }
    rewrite E. unfold Birthday_init.
    now rewrite (strptime_strftime (midnight y m d) R).
  - intros S. destruct libc.
    + exfalso. destruct SI as [_ SI]. rewrite SI in S by auto. discriminate.
    + apply strftime_short_year_rejected; [exact R|].
      destruct (Z.lt_ge_cases y 1000) as [L|L]; [exact L|].
      exfalso. destruct SI as [_ SI]. rewrite SI in S by auto. discriminate.
Qed.

Lemma Birthday_strftime_roundtrip_witness :
  (strict_dmY (Datetime.strftime Datetime.ZeroPadded (midnight 1990 6 15))
   = true ->
   Birthday_init (Datetime.strftime Datetime.ZeroPadded (midnight 1990 6 15))
   = Ok (mkField (midnight 1990 6 15)))
  /\ (strict_dmY (Datetime.strftime Datetime.ZeroPadded (midnight 1990 6 15))
      = true
      <-> Datetime.ZeroPadded = Datetime.ZeroPadded \/ (1000 <= 1990)%Z)
  /\ (strict_dmY (Datetime.strftime Datetime.ZeroPadded (midnight 1990 6 15))
      = false ->
      Birthday_init
        (Datetime.strftime Datetime.ZeroPadded (midnight 1990 6 15))
      = Raise (ValueError InvalidDateFormat)).
Proof.
  apply Birthday_strftime_roundtrip.
  unfold real_date. repeat split; vm_compute; discriminate.
Defined.

(** C8, as stated, fails where the C library writes the year without
    padding: 5 June 990 is a valid calendar date, its text is
    [05.06.990], and [Birthday] rejects that text. *)
Example unpadded_year_not_parsed :
  real_date 990 6 5
  /\ Datetime.strftime Datetime.Unpadded (midnight 990 6 5) = cps "05.06.990"
  /\ Birthday_init (Datetime.strftime Datetime.Unpadded (midnight 990 6 5))
     = Raise (ValueError InvalidDateFormat).
Proof.
  split; [|split; vm_compute; reflexivity].
  unfold real_date. repeat split; vm_compute; discriminate.
Qed.

(** What was parsed is written, with padding, as a text that parses to
    the same birthday. *)
Lemma Birthday_reparse (s : str) (b : Birthday) :
  Birthday_init s = Ok b ->
  Birthday_init (Datetime.strftime Datetime.ZeroPadded (value b)) = Ok b.
Proof.
  intros H. apply Birthday_init_ok_iff in H. apply strptime_ok_iff in H.
  destruct H as (D & M & Y & _ & _ & _ & _ & R & E).
  destruct b as [t]. simpl in *. subst t.
  unfold Birthday_init.
  now rewrite (strptime_strftime (midnight _ _ _) R).
Qed.

(** *** Calendar arithmetic *)

Section Calendar.
Local Open Scope Z_scope.

Lemma dby_succ y :
  Datetime._days_before_year (y + 1)
  = Datetime._days_before_year y + 365 + Datetime.b2z (Datetime._is_leap y).
Proof.
  unfold Datetime._days_before_year, Datetime._is_leap, Datetime.b2z.
  replace (y + 1 - 1) with y by lia.
  destruct (Z.eqb_spec (y mod 4) 0), (Z.eqb_spec (y mod 100) 0),
    (Z.eqb_spec (y mod 400) 0); simpl;
    Z.to_euclidean_division_equations; lia.
Qed.

Lemma dby_mono y y' :
  y <= y' -> Datetime._days_before_year y <= Datetime._days_before_year y'.
Proof.
  unfold Datetime._days_before_year. intros H.
  Z.to_euclidean_division_equations. lia.
Qed.

Lemma dby_cycle y k :
  Datetime._days_before_year (y + 400 * k)
  = Datetime._days_before_year y + 146097 * k.
Proof.
  unfold Datetime._days_before_year.
  Z.to_euclidean_division_equations. lia.
Qed.

Lemma is_leap_cycle y k :
  Datetime._is_leap (y + 400 * k) = Datetime._is_leap y.
Proof.
  unfold Datetime._is_leap.
  replace ((y + 400 * k) mod 4) with (y mod 4)
    by (Z.to_euclidean_division_equations; lia).
  replace ((y + 400 * k) mod 100) with (y mod 100)
    by (Z.to_euclidean_division_equations; lia).
  replace ((y + 400 * k) mod 400) with (y mod 400)
    by (Z.to_euclidean_division_equations; lia).
  reflexivity.
Qed.

Lemma days_before_month_start y m :
  Datetime._days_before_month y m = month_start (Datetime._is_leap y) m.
Proof. reflexivity. Qed.

Lemma days_in_month_length y m :
  Datetime._days_in_month y m = month_length (Datetime._is_leap y) m.
Proof. reflexivity. Qed.

Lemma month_facts leap m :
  1 <= m <= 12 ->
  1 <= month_length leap m
  /\ 0 <= month_start leap m
  /\ month_start leap m + month_length leap m <= 365 + Datetime.b2z leap
  /\ forall m', 1 <= m' <= 12 -> m < m' ->
       month_start leap m + month_length leap m <= month_start leap m'.
Proof.
  intros Hm.
  assert (C : months_in_order leap = true)
    by (destruct leap; vm_compute; reflexivity).
  unfold months_in_order in C.
  pose proof (@all_from_spec _ 12 1 C m ltac:(lia)) as F. cbv beta in F.
  rewrite !andb_true_iff in F. destruct F as [[[F1 F2] F3] F4].
  apply Z.leb_le in F1, F2, F3.
  split; [lia|split; [lia|split; [lia|]]].
  intros m' Hm' L.
  pose proof (@all_from_spec _ 12 1 F4 m' ltac:(lia)) as G. cbv beta in G.
  apply orb_true_iff in G. destruct G as [G|G]; apply Z.leb_le in G; lia.
Qed.

(** The ordinal of a date grows with the date. *)
Lemma ymd2ord_compare y m d y' m' d' :
  real_date y m d -> real_date y' m' d' ->
  Datetime.tuple_cmp [y; m; d] [y'; m'; d']
  = (Datetime._ymd2ord y m d ?= Datetime._ymd2ord y' m' d').
Proof.
  intros (Hy & Hm & Hd) (Hy' & Hm' & Hd').
  rewrite days_in_month_length in Hd, Hd'.
  unfold Datetime._ymd2ord. rewrite !days_before_month_start.
  destruct (@month_facts (Datetime._is_leap y) m Hm) as (A1 & A2 & A3 & A4).
  destruct (@month_facts (Datetime._is_leap y') m' Hm') as (B1 & B2 & B3 & B4).
  simpl.
  destruct (Z.compare_spec y y') as [E|L|L].
  - subst y'.
    destruct (Z.compare_spec m m') as [E|L|L].
    + subst m'. destruct (Z.compare_spec d d'); symmetry;
        [apply Z.compare_eq_iff|apply Z.compare_lt_iff|apply Z.compare_gt_iff];
        lia.
    + symmetry. apply Z.compare_lt_iff.
      pose proof (A4 m' Hm' L). lia.
    + symmetry. apply Z.compare_gt_iff.
      pose proof (B4 m Hm L). lia.
  - symmetry. apply Z.compare_lt_iff.
    pose proof (dby_succ y). pose proof (@dby_mono (y + 1) y' ltac:(lia)). lia.
  - symmetry. apply Z.compare_gt_iff.
    pose proof (dby_succ y'). pose proof (@dby_mono (y' + 1) y ltac:(lia)). lia.
Qed.

Lemma ymd2ord_bounds y m d :
  real_date y m d -> 1 <= Datetime._ymd2ord y m d <= Datetime._MAXORDINAL.
Proof.
  intros (Hy & Hm & Hd). rewrite days_in_month_length in Hd.
  unfold Datetime._ymd2ord. rewrite days_before_month_start.
  destruct (@month_facts (Datetime._is_leap y) m Hm) as (A1 & A2 & A3 & A4).
  pose proof (dby_succ y). pose proof (@dby_mono 1 y ltac:(lia)).
  pose proof (@dby_mono (y + 1) 10000 ltac:(lia)).
  change (Datetime._days_before_year 1) with 0 in *.
  change (Datetime._days_before_year 10000) with 3652059 in *.
  unfold Datetime._MAXORDINAL. lia.
Qed.

Lemma month_day_spec leap n :
  0 <= n < 365 ->
  let '(m, d) := month_day leap n in
  1 <= m <= 12 /\ 1 <= d <= month_length leap m
  /\ month_start leap m + d = n + 1.
Proof.
  intros H.
  assert (C : all_from (month_day_ok leap) 0 365 = true)
    by (destruct leap; vm_compute; reflexivity).
  pose proof (@all_from_spec _ 365 0 C n ltac:(lia)) as F.
  unfold month_day_ok in F. destruct (month_day leap n) as [m d].
  rewrite !andb_true_iff in F. destruct F as [[[[F1 F2] F3] F4] F5].
  apply Z.leb_le in F1, F2, F3, F4. apply Z.eqb_eq in F5. lia.
Qed.

Lemma ord2ymd_unfold n :
  Datetime._ord2ymd n
  = let n0 := n - 1 in
    let n400 := n0 / 146097 in
    let r1 := n0 mod 146097 in
    let n100 := r1 / 36524 in
    let r2 := r1 mod 36524 in
    let n4 := r2 / 1461 in
    let r3 := r2 mod 1461 in
    let n1 := r3 / 365 in
    let r4 := r3 mod 365 in
    let year := n400 * 400 + 1 + (n100 * 100 + n4 * 4 + n1) in
    if (n1 =? 4) || (n100 =? 4) then (year - 1, 12, 31)
    else
      let '(m, d) :=
        month_day ((n1 =? 3) && (negb (n4 =? 24) || (n100 =? 3))) r4 in
      (year, m, d).
Proof.
  unfold Datetime._ord2ymd, month_day,
    Datetime._DI400Y, Datetime._DI100Y, Datetime._DI4Y.
  cbv zeta.
  destruct ((_ =? 4) || (_ =? 4)); [reflexivity|].
  destruct (_ <? _); reflexivity.
Qed.

Lemma ord2ymd_spec n :
  1 <= n ->
  let '(y, m, d) := Datetime._ord2ymd n in
  1 <= y /\ 1 <= m <= 12 /\ 1 <= d <= Datetime._days_in_month y m
  /\ Datetime._ymd2ord y m d = n.
Proof.
  intros Hn. rewrite ord2ymd_unfold. cbv zeta.
  pose proof (Z.div_mod (n - 1) 146097 ltac:(lia)) as E1.
  pose proof (Z.mod_pos_bound (n - 1) 146097 ltac:(lia)) as B1.
  pose proof (Z.div_pos (n - 1) 146097 ltac:(lia) ltac:(lia)) as P1.
  set (n400 := (n - 1) / 146097) in *. set (r1 := (n - 1) mod 146097) in *.
  pose proof (Z.div_mod r1 36524 ltac:(lia)) as E2.
  pose proof (Z.mod_pos_bound r1 36524 ltac:(lia)) as B2.
  set (n100 := r1 / 36524) in *. set (r2 := r1 mod 36524) in *.
  pose proof (Z.div_mod r2 1461 ltac:(lia)) as E3.
  pose proof (Z.mod_pos_bound r2 1461 ltac:(lia)) as B3.
  set (n4 := r2 / 1461) in *. set (r3 := r2 mod 1461) in *.
  pose proof (Z.div_mod r3 365 ltac:(lia)) as E4.
  pose proof (Z.mod_pos_bound r3 365 ltac:(lia)) as B4.
  set (n1 := r3 / 365) in *. set (r4 := r3 mod 365) in *.
  clearbody n400 r1 n100 r2 n4 r3 n1 r4.
  assert (0 <= n100 <= 4 /\ 0 <= n4 <= 24 /\ 0 <= n1 <= 4) as (R100 & R4 & R1)
    by lia.
  set (year := n400 * 400 + 1 + (n100 * 100 + n4 * 4 + n1)).
  destruct ((n1 =? 4) || (n100 =? 4)) eqn:X.
  - (* the last day of a leap year *)
    assert (L : Datetime._is_leap (year - 1) = true).
    { apply orb_true_iff in X. unfold Datetime._is_leap, year.
      destruct X as [X|X]; apply Z.eqb_eq in X;
        destruct (Z.eqb_spec ((n400 * 400 + 1 + (n100 * 100 + n4 * 4 + n1) - 1) mod 4) 0),
          (Z.eqb_spec ((n400 * 400 + 1 + (n100 * 100 + n4 * 4 + n1) - 1) mod 100) 0),
          (Z.eqb_spec ((n400 * 400 + 1 + (n100 * 100 + n4 * 4 + n1) - 1) mod 400) 0);
        try reflexivity; exfalso;
        Z.to_euclidean_division_equations; lia. }
    unfold Datetime._ymd2ord, Datetime._days_in_month,
      Datetime._days_before_month. rewrite L. simpl.
    change (Datetime.index Datetime._DAYS_IN_MONTH 12) with 31.
    unfold Datetime._days_before_year, year.
    apply orb_true_iff in X.
    destruct X as [X|X]; apply Z.eqb_eq in X;
      (split; [lia|split; [lia|split; [lia|]]]);
      Z.to_euclidean_division_equations; lia.
  - apply orb_false_iff in X. destruct X as [X1 X2].
    apply Z.eqb_neq in X1, X2.
    set (leap := (n1 =? 3) && (negb (n4 =? 24) || (n100 =? 3))).
    assert (L : Datetime._is_leap year = leap).
    { unfold Datetime._is_leap, year, leap.
      destruct (Z.eqb_spec n1 3), (Z.eqb_spec n4 24), (Z.eqb_spec n100 3);
        simpl;
        destruct (Z.eqb_spec ((n400 * 400 + 1 + (n100 * 100 + n4 * 4 + n1)) mod 4) 0),
          (Z.eqb_spec ((n400 * 400 + 1 + (n100 * 100 + n4 * 4 + n1)) mod 100) 0),
          (Z.eqb_spec ((n400 * 400 + 1 + (n100 * 100 + n4 * 4 + n1)) mod 400) 0);
        try reflexivity; exfalso;
        Z.to_euclidean_division_equations; lia. }
    pose proof (@month_day_spec leap r4 ltac:(lia)) as M.
    destruct (month_day leap r4) as [m d]. destruct M as (M1 & M2 & M3).
    unfold Datetime._ymd2ord.
    rewrite days_in_month_length, days_before_month_start, L.
    assert (D : Datetime._days_before_year year = n - 1 - r4).
    { unfold Datetime._days_before_year, year.
      Z.to_euclidean_division_equations. lia. }
    unfold year in *. lia.
Qed.

End Calendar.

(** *** Comparison, addition and points in time *)

Section Instants.
Local Open Scope Z_scope.

Lemma ord2ymd_real_date n :
  1 <= n <= Datetime._MAXORDINAL ->
  let '(y, m, d) := Datetime._ord2ymd n in
  real_date y m d /\ Datetime._ymd2ord y m d = n.
Proof.
  intros [H1 H2]. pose proof (ord2ymd_spec H1) as S.
  destruct (Datetime._ord2ymd n) as [[y m] d].
  destruct S as (Sy & Sm & Sd & So). split; [|exact So].
  split; [|split]; try assumption. split; [exact Sy|].
  destruct (Z_le_gt_dec y 9999) as [L|G]; [exact L|exfalso].
  rewrite days_in_month_length in Sd.
  destruct (@month_facts (Datetime._is_leap y) m Sm) as (_ & A2 & _).
  pose proof (@dby_mono 10000 y ltac:(lia)) as Mo.
  change (Datetime._days_before_year 10000) with 3652059 in Mo.
  unfold Datetime._ymd2ord in So. rewrite days_before_month_start in So.
  unfold Datetime._MAXORDINAL in H2. lia.
Qed.

Lemma instant_split t :
  instant t = Datetime.toordinal t * microseconds_per_day + time_of_day t.
Proof. unfold instant, time_of_day, microseconds_per_day. lia. Qed.

Lemma time_of_day_bounds t :
  valid_datetime t -> 0 <= time_of_day t < microseconds_per_day.
Proof.
  intros (_ & Hh & Hm & Hs & Hu).
  unfold time_of_day, microseconds_per_day. lia.
Qed.

Lemma tuple_cmp_app x1 :
  forall y1 x2 y2,
    length x1 = length y1 ->
    Datetime.tuple_cmp (x1 ++ x2) (y1 ++ y2)
    = match Datetime.tuple_cmp x1 y1 with
      | Eq => Datetime.tuple_cmp x2 y2
      | c => c
      end.
Proof.
  induction x1 as [|a x1 IH]; intros [|b y1] x2 y2 L; try discriminate.
  - reflexivity.
  - simpl. destruct (a ?= b); try reflexivity. apply IH.
    simpl in L. congruence.
Qed.

Lemma time_cmp a b :
  valid_datetime a -> valid_datetime b ->
  Datetime.tuple_cmp
    [Datetime.hour a; Datetime.minute a; Datetime.second a;
     Datetime.microsecond a]
    [Datetime.hour b; Datetime.minute b; Datetime.second b;
     Datetime.microsecond b]
  = (time_of_day a ?= time_of_day b).
Proof.
  intros (_ & Hh & Hm & Hs & Hu) (_ & Hh' & Hm' & Hs' & Hu').
  unfold time_of_day. simpl.
  destruct (Z.compare_spec (Datetime.hour a) (Datetime.hour b));
    [destruct (Z.compare_spec (Datetime.minute a) (Datetime.minute b));
     [destruct (Z.compare_spec (Datetime.second a) (Datetime.second b));
      [destruct (Z.compare_spec (Datetime.microsecond a)
                                (Datetime.microsecond b))|..]|..]|..];
    symmetry;
    first [apply Z.compare_eq_iff; lia | apply Z.compare_lt_iff; lia
          | apply Z.compare_gt_iff; lia].
Qed.

(** The order of [datetime] is the order of the points in time. *)
Lemma cmp_instant a b :
  valid_datetime a -> valid_datetime b ->
  Datetime._cmp a b = (instant a ?= instant b).
Proof.
  intros Va Vb.
  pose proof (time_of_day_bounds Va) as Ta.
  pose proof (time_of_day_bounds Vb) as Tb.
  unfold Datetime._cmp, Datetime.fields.
  change (Datetime.tuple_cmp
            ([Datetime.year a; Datetime.month a; Datetime.day a]
             ++ [Datetime.hour a; Datetime.minute a; Datetime.second a;
                 Datetime.microsecond a])
            ([Datetime.year b; Datetime.month b; Datetime.day b]
             ++ [Datetime.hour b; Datetime.minute b; Datetime.second b;
                 Datetime.microsecond b])
          = (instant a ?= instant b)).
  rewrite tuple_cmp_app by reflexivity.
  rewrite (ymd2ord_compare (proj1 Va) (proj1 Vb)), (time_cmp Va Vb).
  rewrite !instant_split. fold (Datetime.toordinal a) (Datetime.toordinal b).
  unfold microseconds_per_day in *.
  destruct (Z.compare_spec (Datetime.toordinal a) (Datetime.toordinal b));
    [destruct (Z.compare_spec (time_of_day a) (time_of_day b))|..];
    symmetry;
    first [apply Z.compare_eq_iff; lia | apply Z.compare_lt_iff; lia
          | apply Z.compare_gt_iff; lia].
Qed.

Lemma le_instant a b :
  valid_datetime a -> valid_datetime b ->
  (Datetime.le a b = true <-> instant a <= instant b).
Proof.
  intros Va Vb. unfold Datetime.le. rewrite (cmp_instant Va Vb).
  destruct (Z.compare_spec (instant a) (instant b));
    split; intros; try discriminate; try reflexivity; lia.
Qed.

Lemma new_valid y m d hh mm ss us t :
  Datetime.new y m d hh mm ss us = Ok t <->
  (valid_datetime t /\ t = Datetime.mkDatetime y m d hh mm ss us).
Proof.
  unfold Datetime.new, rbind.
  destruct (Datetime._check_date_fields y m d) as [[]|e] eqn:C.
  - apply check_date_fields_iff in C.
    unfold Datetime._check_time_fields, valid_datetime.
    destruct (Z.leb_spec 0 hh), (Z.leb_spec hh 23), (Z.leb_spec 0 mm),
      (Z.leb_spec mm 59), (Z.leb_spec 0 ss), (Z.leb_spec ss 59),
      (Z.leb_spec 0 us), (Z.leb_spec us 999999); simpl; split;
      try discriminate;
      try (intros E; inversion E; subst; simpl;
           split; [split; [assumption|lia]|reflexivity]);
      intros [(_ & V) ->]; simpl in V; first [reflexivity | exfalso; lia].
  - split; [discriminate|]. intros [(R & _) ->]. simpl in R.
    apply check_date_fields_iff in R. congruence.
Qed.

(** Adding whole days moves the point in time by that many days. *)
Lemma add_days_spec t days :
  valid_datetime t ->
  1 <= Datetime.toordinal t + days <= Datetime._MAXORDINAL ->
  exists lim,
    Datetime.add_days t days = Ok lim
    /\ valid_datetime lim
    /\ instant lim = instant t + days * microseconds_per_day.
Proof.
  intros V H. unfold Datetime.add_days, Datetime.timedelta_days, rbind.
  assert (A : (999999999 <? Z.abs (Datetime.toordinal t + days)) = false).
  { apply Z.ltb_ge. unfold Datetime._MAXORDINAL in H. lia. }
  rewrite A.
  assert (B : (0 <? Datetime.toordinal t + days)
              && (Datetime.toordinal t + days <=? Datetime._MAXORDINAL)
              = true).
  { apply andb_true_iff. split; [apply Z.ltb_lt|apply Z.leb_le]; lia. }
  rewrite B.
  pose proof (ord2ymd_real_date H) as S.
  destruct (Datetime._ord2ymd (Datetime.toordinal t + days)) as [[y m] d].
  destruct S as [R O].
  eexists. split; [reflexivity|]. split.
  - split; [exact R|]. simpl. apply V.
  - rewrite !instant_split. unfold Datetime.toordinal at 1. simpl.
    rewrite O. unfold time_of_day. simpl. lia.
Qed.

End Instants.

(** *** Upcoming birthdays *)

Section Upcoming.
Local Open Scope Z_scope.

Lemma new_raise y m d hh mm ss us e :
  Datetime.new y m d hh mm ss us = Raise e -> e = ValueError FieldOutOfRange.
Proof.
  unfold Datetime.new, rbind.
  destruct (Datetime._check_date_fields y m d) as [[]|e'] eqn:C.
  - unfold Datetime._check_time_fields.
    repeat match goal with
           | |- context [if ?b then _ else _] => destruct b
           end; intros H; now inversion H.
  - intros H. inversion H; subst. now apply check_date_fields_raise in C.
Qed.

(** What one round of the loop decides, when the end of the window is a
    date the calendar has. *)
Lemma is_upcoming_spec today days record :
  valid_datetime today ->
  1 <= Datetime.toordinal today + days <= Datetime._MAXORDINAL ->
  is_upcoming today days record
  = match birthday record with
    | None => Ok false
    | Some b =>
        match Datetime.replace_year (value b) (Datetime.year today) with
        | Ok p => Ok (in_window today days p)
        | Raise e => Raise e
        end
    end.
Proof.
  intros V H. unfold is_upcoming.
  destruct (birthday record) as [b|]; [|reflexivity].
  destruct (Datetime.replace_year (value b) (Datetime.year today))
    as [p|e] eqn:P; [|reflexivity].
  simpl. unfold Datetime.replace_year in P. apply new_valid in P.
  destruct P as [Vp _].
  pose proof (ymd2ord_bounds (proj1 V)) as Bo.
  fold (Datetime.toordinal today) in Bo.
  destruct (@add_days_spec today days V H) as (lim & A & Vl & Il).
  assert (T : Datetime.timedelta_days days = Ok days).
  { unfold Datetime.timedelta_days.
    replace (999999999 <? Z.abs days) with false; [reflexivity|].
    symmetry. apply Z.ltb_ge. unfold Datetime._MAXORDINAL in *. lia. }
  rewrite T. simpl. rewrite A. simpl. unfold in_window.
  destruct (Datetime.le today p) eqn:L1.
  - apply (le_instant V Vp) in L1.
    replace (instant today <=? instant p) with true
      by (symmetry; now apply Z.leb_le).
    simpl. f_equal.
    destruct (Datetime.le p lim) eqn:L2.
    + apply (le_instant Vp Vl) in L2. symmetry. apply Z.leb_le. lia.
    + symmetry. apply Z.leb_gt.
      destruct (Z.le_gt_cases (instant p) (instant lim)) as [C|C]; [|lia].
      apply (le_instant Vp Vl) in C. congruence.
  - replace (instant today <=? instant p) with false; [reflexivity|].
    symmetry. apply Z.leb_gt.
    destruct (Z.le_gt_cases (instant today) (instant p)) as [C|C]; [|lia].
    apply (le_instant V Vp) in C. congruence.
Qed.

Lemma upcoming_loop_ok today days records :
  (forall r, In r records -> exists k, is_upcoming today days r = Ok k) ->
  forall acc,
  exists res,
    upcoming_loop today days records acc = Ok res
    /\ forall r, In r res
                 <-> In r acc
                     \/ (In r records /\ is_upcoming today days r = Ok true).
Proof.
  induction records as [|x rs IH]; intros H acc; simpl.
  - exists acc. split; [reflexivity|]. intros r. tauto.
  - destruct (H x (or_introl eq_refl)) as [k Hk]. rewrite Hk. simpl.
    destruct (IH (fun r Hr => H r (or_intror Hr))
                 (if k then acc ++ [x] else acc)) as (res & E & I).
    exists res. split; [exact E|]. intros r. rewrite I.
    destruct k.
    + rewrite in_app_iff. simpl. split.
      * intros [[?|[<-|[]]]|[? ?]]; auto.
      * intros [?|[[<-|?] ?]]; auto.
    + split.
      * intros [?|[? ?]]; auto.
      * intros [?|[[<-|?] ?]]; auto. congruence.
Qed.

Lemma upcoming_loop_raises today days records :
  (exists r e, In r records /\ is_upcoming today days r = Raise e) ->
  forall acc, exists e, upcoming_loop today days records acc = Raise e.
Proof.
  induction records as [|x rs IH]; intros (r & e & I & E) acc; simpl.
  - destruct I.
  - destruct (is_upcoming today days x) as [k|e'] eqn:X; simpl; [|eauto].
    destruct I as [<-|I]; [congruence|]. apply IH. eauto.
Qed.

Lemma upcoming_loop_raise_from today days records :
  forall acc e,
    upcoming_loop today days records acc = Raise e ->
    exists r, In r records /\ is_upcoming today days r = Raise e.
Proof.
  induction records as [|x rs IH]; intros acc e; simpl; [discriminate|].
  destruct (is_upcoming today days x) as [k|e'] eqn:X; simpl.
  - intros H. apply IH in H. destruct H as (r & I & E). eauto.
  - intros H. inversion H; subst. eauto.
Qed.

(** C1 (amended). When every stored birthday has a projection onto the
    year of the reference instant and the end of the window is a date
    the calendar has, [get_upcoming_birthdays] returns a list, and a
    record is in it exactly when it is in the directory and the
    projection of its birthday lies in the closed interval from the
    reference instant to [days] days later.  A birthday whose projection
    is before the reference instant is never included: nothing is moved
    to the next year. *)
Theorem upcoming_birthdays_window
        (book : AddressBook) (days : Z) (today : Datetime.datetime) :
  valid_datetime today ->
  0 <= days ->
  Datetime.toordinal today + days <= Datetime._MAXORDINAL ->
  (forall r b,
      In r (dict_values (data book)) -> birthday r = Some b ->
      exists p, Datetime.replace_year (value b) (Datetime.year today) = Ok p) ->
  exists res,
    get_upcoming_birthdays book days today = Ok res
    /\ (forall r,
           In r res
           <-> In r (dict_values (data book))
               /\ exists b p,
                 birthday r = Some b
                 /\ Datetime.replace_year (value b) (Datetime.year today)
                    = Ok p
                 /\ instant today <= instant p
                    <= instant today + days * microseconds_per_day)
    /\ (forall r b p,
           birthday r = Some b ->
           Datetime.replace_year (value b) (Datetime.year today) = Ok p ->
           instant p < instant today -> ~ In r res).
Proof.
  intros V D O P.
  pose proof (ymd2ord_bounds (proj1 V)) as Bo.
  fold (Datetime.toordinal today) in Bo.
  assert (H : 1 <= Datetime.toordinal today + days <= Datetime._MAXORDINAL)
    by lia.
  assert (K : forall r, In r (dict_values (data book)) ->
                        exists k, is_upcoming today days r = Ok k).
  { intros r I. rewrite (@is_upcoming_spec today days r V H).
    destruct (birthday r) as [b|] eqn:B; [|eauto].
    destruct (P r b I B) as [p ->]. eauto. }
  destruct (@upcoming_loop_ok today days _ K []) as (res & E & I).
  assert (W : forall r,
             In r res
             <-> In r (dict_values (data book))
                 /\ exists b p,
                   birthday r = Some b
                   /\ Datetime.replace_year (value b) (Datetime.year today)
                      = Ok p
                   /\ instant today <= instant p
                      <= instant today + days * microseconds_per_day).
  { intros r. rewrite I, (@is_upcoming_spec today days r V H). split.
    - intros [[]|[Ir U]]. split; [exact Ir|].
      destruct (birthday r) as [b|]; [|discriminate].
      destruct (Datetime.replace_year (value b) (Datetime.year today))
        as [p|e] eqn:R; [|discriminate].
      inversion U as [U']. unfold in_window in U'.
      apply andb_true_iff in U'. destruct U' as [U1 U2].
      apply Z.leb_le in U1, U2. exists b, p. auto.
    - intros (Ir & b & p & B & R & L1 & L2). right. split; [exact Ir|].
      rewrite B, R. unfold in_window.
      replace (instant today <=? instant p) with true
        by (symmetry; now apply Z.leb_le).
      replace (instant p <=? instant today + days * microseconds_per_day)
        with true by (symmetry; now apply Z.leb_le).
      reflexivity. }
  exists res. split; [exact E|]. split; [exact W|].
  intros r b p B R L Ir. apply W in Ir.
  destruct Ir as (_ & b' & p' & B' & R' & L1 & _).
  rewrite B in B'. inversion B'; subst b'.
  rewrite R in R'. inversion R'; subst p'. lia.
Qed.

End Upcoming.

(** *** Examples and totality of the birthday query *)

Section UpcomingTotal.
Local Open Scope Z_scope.

Lemma alice_is_constructed :
  exists s1 s2,
    Record_init (cps "Alice") = Ok s1
    /\ add_phone (cps "0501234567") s1 = (Ok tt, s2)
    /\ add_birthday (cps "15.06.1990") s2 = (Ok tt, alice)
    /\ add_record (mkBook []) alice = only_alice.
Proof. do 2 eexists. repeat split; vm_compute; reflexivity. Qed.

(** Reference 10.06.2024, seven days: Alice (15.06.) is listed. *)
Example upcoming_alice_listed :
  get_upcoming_birthdays only_alice 7 (midnight 2024 6 10) = Ok [alice].
Proof. vm_compute. reflexivity. Qed.

(** Reference 20.06.2024: Alice's day has passed and is not moved to the
    next year. *)
Example upcoming_alice_missed :
  get_upcoming_birthdays only_alice 7 (midnight 2024 6 20) = Ok [].
Proof. vm_compute. reflexivity. Qed.

Lemma upcoming_birthdays_window_witness :
  exists res,
    get_upcoming_birthdays only_alice 7 (midnight 2024 6 10) = Ok res
    /\ (forall r,
           In r res
           <-> In r (dict_values (data only_alice))
               /\ exists b p,
                 birthday r = Some b
                 /\ Datetime.replace_year
                      (value b) (Datetime.year (midnight 2024 6 10)) = Ok p
                 /\ instant (midnight 2024 6 10) <= instant p
                    <= instant (midnight 2024 6 10)
                       + 7 * microseconds_per_day)
    /\ (forall r b p,
           birthday r = Some b ->
           Datetime.replace_year
             (value b) (Datetime.year (midnight 2024 6 10)) = Ok p ->
           instant p < instant (midnight 2024 6 10) -> ~ In r res).
Proof.
  apply (@upcoming_birthdays_window only_alice 7 (midnight 2024 6 10)).
  - unfold valid_datetime, real_date. simpl.
    change (Datetime._days_in_month 2024 6) with 30. lia.
  - lia.
  - vm_compute. discriminate.
  - intros r b [<-|[]] B. simpl in B. inversion B; subst b.
    eexists. vm_compute. reflexivity.
Defined.

(** C1, as stated, fails: with a birthday on 29 February in the
    directory and a reference year that is not a leap year the call
    raises, so Alice, whose projection 15.06.2023 lies in the window of
    10.06.2023, is in no result. *)
Lemma upcoming_birthdays_raises_on_feb29 :
  get_upcoming_birthdays bob_and_alice 7 (midnight 2023 6 10)
  = Raise (ValueError FieldOutOfRange)
  /\ In alice (dict_values (data bob_and_alice))
  /\ exists b p,
      birthday alice = Some b
      /\ Datetime.replace_year (value b) (Datetime.year (midnight 2023 6 10))
         = Ok p
      /\ instant (midnight 2023 6 10) <= instant p
         <= instant (midnight 2023 6 10) + 7 * microseconds_per_day.
Proof.
  split; [vm_compute; reflexivity|].
  split; [simpl; auto|].
  exists (mkField (midnight 1990 6 15)), (midnight 2023 6 15).
  split; [reflexivity|]. split; [vm_compute; reflexivity|].
  vm_compute. split; discriminate.
Qed.

Lemma month_length_not_feb leap leap' m :
  m <> 2 -> month_length leap m = month_length leap' m.
Proof.
  intros H. unfold month_length.
  replace (m =? 2) with false by (symmetry; now apply Z.eqb_neq).
  reflexivity.
Qed.

(** Moving a date to another year fails on 29 February only. *)
Lemma replace_year_ok_iff (t : Datetime.datetime) (y : Z) :
  valid_datetime t -> 1 <= y <= 9999 ->
  ((exists p, Datetime.replace_year t y = Ok p)
   <-> ~ (Datetime.month t = 2 /\ Datetime.day t = 29
          /\ Datetime._is_leap y = false)).
Proof.
  intros ((Hy & Hm & Hd) & Ht) Y.
  rewrite days_in_month_length in Hd.
  assert (F : month_length true 2 = 29 /\ month_length false 2 = 28)
    by (split; reflexivity).
  split.
  - intros [p P] (M & D & L). unfold Datetime.replace_year in P.
    apply new_valid in P. destruct P as [((_ & _ & Hd') & _) ->].
    simpl in Hd'. rewrite days_in_month_length, M, L in Hd'. lia.
  - intros N. eexists. unfold Datetime.replace_year. apply new_valid.
    split; [|reflexivity]. split; [|exact Ht]. simpl.
    split; [exact Y|]. split; [exact Hm|]. rewrite days_in_month_length.
    destruct (Z.eq_dec (Datetime.month t) 2) as [M|M].
    + rewrite M in *.
      destruct (Datetime._is_leap y) eqn:L; [|assert (Datetime.day t <> 29) by tauto];
        destruct (Datetime._is_leap (Datetime.year t)); lia.
    + rewrite (month_length_not_feb _ (Datetime._is_leap (Datetime.year t)) M).
      exact Hd.
Qed.

Lemma replace_year_raise t y e :
  Datetime.replace_year t y = Raise e -> e = ValueError FieldOutOfRange.
Proof. apply new_raise. Qed.

(** C10 (amended). When the end of the window is a date the calendar
    has: in a leap reference year [get_upcoming_birthdays] always
    returns a list; in any other year it returns a list exactly when no
    stored birthday falls on 29 February, and otherwise raises the
    [ValueError] of the projection.  Such a failing directory exists. *)
Theorem upcoming_birthdays_total
        (book : AddressBook) (days : Z) (today : Datetime.datetime) :
  valid_datetime today ->
  (forall r b, In r (dict_values (data book)) -> birthday r = Some b ->
               valid_datetime (value b)) ->
  1 <= Datetime.toordinal today + days <= Datetime._MAXORDINAL ->
  (Datetime._is_leap (Datetime.year today) = true ->
   exists res, get_upcoming_birthdays book days today = Ok res)
  /\ (Datetime._is_leap (Datetime.year today) = false ->
      ((exists res, get_upcoming_birthdays book days today = Ok res)
       <-> forall r b,
          In r (dict_values (data book)) -> birthday r = Some b ->
          ~ (Datetime.month (value b) = 2 /\ Datetime.day (value b) = 29)))
  /\ (forall e, get_upcoming_birthdays book days today = Raise e ->
                e = ValueError FieldOutOfRange)
  /\ (exists book' today',
         valid_datetime today'
         /\ Datetime._is_leap (Datetime.year today') = false
         /\ get_upcoming_birthdays book' 7 today'
            = Raise (ValueError FieldOutOfRange)).
Proof.
  intros V B H.
  assert (Y : 1 <= Datetime.year today <= 9999) by apply V.
  assert (OKs : (forall r b, In r (dict_values (data book)) ->
                             birthday r = Some b ->
                             ~ (Datetime.month (value b) = 2
                                /\ Datetime.day (value b) = 29
                                /\ Datetime._is_leap (Datetime.year today)
                                   = false)) ->
                exists res, get_upcoming_birthdays book days today = Ok res).
  { intros N.
    assert (K : forall r, In r (dict_values (data book)) ->
                          exists k, is_upcoming today days r = Ok k).
    { intros r I. rewrite (@is_upcoming_spec today days r V H).
      destruct (birthday r) as [b|] eqn:Bd; [|eauto].
      destruct (proj2 (@replace_year_ok_iff (value b) _ (B r b I Bd) Y)
                      (N r b I Bd)) as [p ->].
      eauto. }
    destruct (@upcoming_loop_ok today days _ K []) as (res & E & _).
    exists res. exact E. }
  split; [|split; [|split]].
  - intros L. apply OKs. intros r b _ _ (_ & _ & L'). congruence.
  - intros L. split.
    + intros [res E] r b I Bd [M D].
      destruct (@upcoming_loop_raises today days (dict_values (data book)))
        with (acc := @nil Record_) as [e E'];
        [|unfold get_upcoming_birthdays in E; congruence].
      destruct (Datetime.replace_year (value b) (Datetime.year today))
        as [p|e] eqn:R.
      * exfalso.
        apply (proj1 (@replace_year_ok_iff (value b) _ (B r b I Bd) Y));
          eauto.
      * exists r, e. split; [exact I|].
        rewrite (@is_upcoming_spec today days r V H), Bd, R. reflexivity.
    + intros N. apply OKs. intros r b I Bd (M & D & _). apply (N r b I Bd).
      auto.
  - intros e E. unfold get_upcoming_birthdays in E.
    apply upcoming_loop_raise_from in E. destruct E as (r & I & E).
    rewrite (@is_upcoming_spec today days r V H) in E.
    destruct (birthday r) as [b|]; [|discriminate].
    destruct (Datetime.replace_year (value b) (Datetime.year today))
      as [p|e'] eqn:R; [discriminate|].
    inversion E; subst. now apply replace_year_raise in R.
  - exists bob_and_alice, (midnight 2023 6 10).
    split; [|split; vm_compute; reflexivity].
    unfold valid_datetime, real_date. simpl.
    change (Datetime._days_in_month 2023 6) with 30. lia.
Qed.

Lemma upcoming_birthdays_total_witness :
  (Datetime._is_leap (Datetime.year (midnight 2023 6 10)) = true ->
   exists res,
     get_upcoming_birthdays bob_and_alice 7 (midnight 2023 6 10) = Ok res)
  /\ (Datetime._is_leap (Datetime.year (midnight 2023 6 10)) = false ->
      ((exists res,
           get_upcoming_birthdays bob_and_alice 7 (midnight 2023 6 10)
           = Ok res)
       <-> forall r b,
          In r (dict_values (data bob_and_alice)) -> birthday r = Some b ->
          ~ (Datetime.month (value b) = 2 /\ Datetime.day (value b) = 29)))
  /\ (forall e,
         get_upcoming_birthdays bob_and_alice 7 (midnight 2023 6 10)
         = Raise e ->
         e = ValueError FieldOutOfRange)
  /\ (exists book' today',
         valid_datetime today'
         /\ Datetime._is_leap (Datetime.year today') = false
         /\ get_upcoming_birthdays book' 7 today'
            = Raise (ValueError FieldOutOfRange)).
Proof.
  apply (@upcoming_birthdays_total bob_and_alice 7 (midnight 2023 6 10)).
  - unfold valid_datetime, real_date. simpl.
    change (Datetime._days_in_month 2023 6) with 30. lia.
  - intros r b [<-|[<-|[]]] Bd; simpl in Bd; inversion Bd; subst b;
      unfold valid_datetime, real_date; simpl.
    + change (Datetime._days_in_month 2000 2) with 29. lia.
    + change (Datetime._days_in_month 1990 6) with 30. lia.
  - vm_compute. split; discriminate.
Defined.

(** C10, as stated, fails: a leap reference year does not make the call
    total; a window that ends after 31.12.9999 raises [OverflowError]. *)
Lemma upcoming_birthdays_overflow_in_leap_year :
  Datetime._is_leap (Datetime.year (midnight 2024 6 10)) = true
  /\ get_upcoming_birthdays only_alice 3000000 (midnight 2024 6 10)
     = Raise OverflowError.
Proof. split; vm_compute; reflexivity. Qed.

End UpcomingTotal.

(** ** Further properties of the records *)

Lemma find_in_without w v l1 (p : Phone) l2 :
  value p = v -> w <> v ->
  find_in (l1 ++ l2) w = find_in (l1 ++ p :: l2) w.
Proof.
  intros Hp N. rewrite !find_in_app. simpl.
  replace (str_eqb (value p) w) with false; [reflexivity|].
  symmetry. apply str_eqb_neq. congruence.
Qed.

(** X1. [remove_phone] never raises.  When the value is not among the
    phones the record stays as it is; otherwise exactly one phone goes,
    the first with that value: the phones before and after it keep their
    order, the list is one shorter, and looking up any other value gives
    what it gave before. *)
Theorem remove_phone_first_only (self : Record_) (v : str) :
  exists self',
    remove_phone v self = (Ok tt, self')
    /\ name self' = name self /\ birthday self' = birthday self
    /\ (forall w, w <> v -> find_in (phones self') w = find_in (phones self) w)
    /\ (~ In v (List.map (@value str) (phones self)) -> self' = self)
    /\ (In v (List.map (@value str) (phones self)) ->
        exists l1 p l2,
          phones self = l1 ++ p :: l2 /\ value p = v
          /\ ~ In v (List.map (@value str) l1)
          /\ phones self' = l1 ++ l2
          /\ S (length (phones self')) = length (phones self)).
Proof.
  destruct (find_in (phones self) v) as [p|] eqn:F.
  - destruct (list_remove_found _ _ F) as (l1 & l2 & E & N & Rm).
    pose proof (find_in_value _ _ F) as Hp.
    exists (mkRecord (name self) (l1 ++ l2) (birthday self)).
    split.
    { unfold remove_phone, find_phone, phones_remove, mbind, get_phones,
        mret, lift, set_phones. rewrite F, Rm. reflexivity. }
    split; [reflexivity|]. split; [reflexivity|]. split.
    { intros w Hw. simpl. rewrite E.
      now apply (@find_in_without w v l1 p l2). }
    split.
    { intros H. apply find_in_none in H. congruence. }
    intros _. exists l1, p, l2. simpl.
    split; [exact E|]. split; [exact Hp|].
    split; [now apply find_in_none|]. split; [reflexivity|].
    rewrite E, !length_app. simpl. lia.
  - exists self. split.
    { unfold remove_phone, find_phone, mbind, get_phones, mret.
      now rewrite F. }
    split; [reflexivity|]. split; [reflexivity|].
    split; [reflexivity|]. split; [reflexivity|].
    intros H. apply find_in_none in F. tauto.
Qed.

(** X2. When the old value is found and the new one is a valid phone
    number, [edit_phone] takes the first phone with the old value out
    and puts the new phone at the end of the list: the other phones keep
    their order, and the edited number changes its place unless it was
    the last. *)
Theorem edit_phone_moves_to_end
        (self : Record_) (old_phone new_phone : str) :
  In old_phone (List.map (@value str) (phones self)) ->
  valid_phone new_phone ->
  exists l1 p l2,
    phones self = l1 ++ p :: l2 /\ value p = old_phone
    /\ ~ In old_phone (List.map (@value str) l1)
    /\ edit_phone old_phone new_phone self
       = (Ok tt,
          mkRecord (name self) (l1 ++ l2 ++ [mkField new_phone])
                   (birthday self)).
Proof.
  intros I V.
  destruct (find_in (phones self) old_phone) as [p|] eqn:F;
    [|apply find_in_none in F; tauto].
  destruct (@edit_phone_found self old_phone new_phone p F)
    as (l1 & l2 & E & N & Ed).
  exists l1, p, l2. split; [exact E|].
  split; [eapply find_in_value; eauto|].
  split; [now apply find_in_none|].
  rewrite Ed, (add_phone_valid _ V). simpl. now rewrite <- app_assoc.
Qed.

Lemma edit_phone_moves_to_end_witness :
  exists l1 p l2,
    phones (mkRecord (mkField (cps "Alice"))
                     [mkField (cps "0501234567"); mkField (cps "0679876543")]
                     None)
    = l1 ++ p :: l2
    /\ value p = cps "0501234567"
    /\ ~ In (cps "0501234567") (List.map (@value str) l1)
    /\ edit_phone (cps "0501234567") (cps "0931112233")
         (mkRecord (mkField (cps "Alice"))
                   [mkField (cps "0501234567"); mkField (cps "0679876543")]
                   None)
       = (Ok tt,
          mkRecord
            (name (mkRecord (mkField (cps "Alice"))
                     [mkField (cps "0501234567");
                      mkField (cps "0679876543")] None))
            (l1 ++ l2 ++ [mkField (cps "0931112233")])
            (birthday (mkRecord (mkField (cps "Alice"))
                     [mkField (cps "0501234567");
                      mkField (cps "0679876543")] None))).
Proof.
  apply (@edit_phone_moves_to_end
           (mkRecord (mkField (cps "Alice"))
                     [mkField (cps "0501234567"); mkField (cps "0679876543")]
                     None)
           (cps "0501234567") (cps "0931112233")).
  - simpl. auto.
  - split; [reflexivity|]. repeat constructor.
Defined.

(** X3. When the old value is not among the phones, [edit_phone] returns
    without an error and without a change, whatever the new value is:
    the new value is not even validated. *)
Theorem edit_phone_unknown_old_is_silent
        (self : Record_) (old_phone new_phone : str) :
  ~ In old_phone (List.map (@value str) (phones self)) ->
  edit_phone old_phone new_phone self = (Ok tt, self).
Proof.
  intros H. apply find_in_none in H.
  unfold edit_phone, find_phone, mbind, get_phones, mret. now rewrite H.
Qed.

Lemma edit_phone_unknown_old_is_silent_witness :
  edit_phone (cps "0679876543") (cps "not a number")
             (mkRecord (mkField (cps "Alice"))
                       [mkField (cps "0501234567")] None)
  = (Ok tt,
     mkRecord (mkField (cps "Alice")) [mkField (cps "0501234567")] None).
Proof.
  apply edit_phone_unknown_old_is_silent.
  simpl. intros [H|[]]. discriminate H.
Defined.

Lemma valid_phone_dec (s : str) : {valid_phone s} + {~ valid_phone s}.
Proof.
  destruct (Phone_validate s) eqn:E.
  - left. now apply Phone_validate_iff.
  - right. intros V. apply Phone_validate_iff in V. congruence.
Qed.

Lemma add_phone_keeps_valid (self : Record_) (raw : str) :
  phones_valid self -> phones_valid (snd (add_phone raw self)).
Proof.
  intros H. destruct (valid_phone_dec raw) as [V|V].
  - rewrite (add_phone_valid self V). unfold phones_valid. simpl.
    apply Forall_app. split; [exact H|].
    constructor; [exact V|constructor].
  - now rewrite (add_phone_rejects self V).
Qed.

Lemma Forall_without (A : Type) (P : A -> Prop) l1 x l2 :
  Forall P (l1 ++ x :: l2) -> Forall P (l1 ++ l2).
Proof.
  intros H. apply Forall_app in H. destruct H as [H1 H2].
  inversion H2; subst. apply Forall_app. auto.
Qed.

Lemma strptime_midnight (s : str) (t : Datetime.datetime) :
  Datetime.strptime s = Ok t ->
  valid_datetime t /\ time_of_day t = 0%Z.
Proof.
  intros H. apply strptime_ok_iff in H.
  destruct H as (D & M & Y & _ & _ & _ & _ & R & ->).
  split; [|reflexivity]. split; [exact R|]. simpl. lia.
Qed.

(** X4. The methods of a record keep it well formed: after
    [Record(name)], and after any [add_phone], [remove_phone],
    [edit_phone] or [add_birthday], whether it returned or raised, every
    phone of the record is a valid phone number and the birthday, when
    set, is a real calendar date at midnight. *)
Theorem record_stays_valid (self : Record_) :
  record_valid self ->
  (forall raw, record_valid (snd (add_phone raw self)))
  /\ (forall v, record_valid (snd (remove_phone v self)))
  /\ (forall old_phone new_phone,
         record_valid (snd (edit_phone old_phone new_phone self)))
  /\ (forall s, record_valid (snd (add_birthday s self)))
  /\ (forall n r, Record_init n = Ok r -> record_valid r).
Proof.
  intros [P B]. split; [|split; [|split; [|split]]].
  - intros raw. split; [now apply add_phone_keeps_valid|].
    destruct (valid_phone_dec raw) as [V|V].
    + now rewrite (add_phone_valid self V).
    + now rewrite (add_phone_rejects self V).
  - intros v. destruct (find_in (phones self) v) as [p|] eqn:F.
    + destruct (list_remove_found _ _ F) as (l1 & l2 & E & _ & Rm).
      unfold remove_phone, find_phone, phones_remove, mbind, get_phones,
        mret, lift, set_phones. rewrite F, Rm. simpl.
      split; [|exact B]. unfold phones_valid in *. simpl.
      rewrite E in P. now apply Forall_without in P.
    + unfold remove_phone, find_phone, mbind, get_phones, mret.
      rewrite F. simpl. now split.
  - intros old_phone new_phone.
    destruct (find_in (phones self) old_phone) as [p|] eqn:F.
    + destruct (@edit_phone_found self old_phone new_phone p F)
        as (l1 & l2 & E & _ & ->).
      assert (P' : phones_valid
                     (mkRecord (name self) (l1 ++ l2) (birthday self))).
      { unfold phones_valid in *. simpl. rewrite E in P.
        now apply Forall_without in P. }
      split; [now apply add_phone_keeps_valid|].
      destruct (valid_phone_dec new_phone) as [V|V].
      * now rewrite (add_phone_valid _ V).
      * now rewrite (add_phone_rejects _ V).
    + rewrite (@edit_phone_absent self old_phone new_phone F). now split.
  - intros s. unfold add_birthday, mbind, lift, set_birthday, Birthday_init.
    destruct (Datetime.strptime s) as [t|[m|]] eqn:E; simpl;
      try (now split).
    split; [exact P|]. intros b Hb. simpl in Hb. inversion Hb; subst b.
    simpl. now apply (strptime_midnight s).
  - intros n r H. inversion H; subst. split.
    + constructor.
    + intros b Hb. discriminate Hb.
Qed.

Lemma record_stays_valid_witness :
  (forall raw, record_valid (snd (add_phone raw alice)))
  /\ (forall v, record_valid (snd (remove_phone v alice)))
  /\ (forall old_phone new_phone,
         record_valid (snd (edit_phone old_phone new_phone alice)))
  /\ (forall s, record_valid (snd (add_birthday s alice)))
  /\ (forall n r, Record_init n = Ok r -> record_valid r).
Proof.
  apply (@record_stays_valid alice). split.
  - repeat constructor.
  - intros b Hb. simpl in Hb. inversion Hb; subst b. simpl.
    split; [|reflexivity].
    unfold valid_datetime, real_date. simpl.
    change (Datetime._days_in_month 1990 6) with 30%Z. lia.
Defined.

Lemma add_birthday_sets_or_keeps_aux (self : Record_) (s : str) :
  (exists b,
      Birthday_init s = Ok b
      /\ add_birthday s self
         = (Ok tt, mkRecord (name self) (phones self) (Some b)))
  \/ ((forall b, Birthday_init s <> Ok b)
      /\ add_birthday s self = (Raise (ValueError InvalidDateFormat), self)).
Proof.
  unfold add_birthday, mbind, lift, set_birthday, Birthday_init.
  destruct (Datetime.strptime s) as [t|e] eqn:E.
  - left. eauto.
  - right. destruct (strptime_raises _ E) as [m ->].
    split; [discriminate|reflexivity].
Qed.

(** X5. [add_birthday] either sets the birthday to the date the text
    denotes, replacing one that was set before and leaving name and
    phones alone, or raises the invalid-date-format [ValueError] and then
    leaves the record, a birthday set before included, as it was. *)
Theorem add_birthday_sets_or_keeps (self : Record_) (s : str) :
  (exists b,
      Birthday_init s = Ok b
      /\ add_birthday s self
         = (Ok tt, mkRecord (name self) (phones self) (Some b)))
  \/ ((forall b, Birthday_init s <> Ok b)
      /\ add_birthday s self = (Raise (ValueError InvalidDateFormat), self)).
Proof. apply add_birthday_sets_or_keeps_aux. Qed.

(** ** Parsing and writing a birthday *)

Lemma field_number_snoc (t : str) (c : codepoint) :
  field_number (t ++ [c]) = digit_step (field_number t) c.
Proof. unfold field_number. now rewrite fold_left_app. Qed.

(** Written with as many digits as it has, a field of digits 0-9 is the
    field itself. *)
Lemma zero_padded_field (t : str) :
  Forall (fun c => Unicode.is_ascii_digit c = true) t ->
  Datetime.zero_padded (length t) (field_number t) = t.
Proof.
  induction t as [|c t IH] using rev_ind; intros H; [reflexivity|].
  apply Forall_app in H. destruct H as [Ht Hc]. inversion Hc; subst.
  rewrite length_app, Nat.add_comm. simpl length.
  cbn [Nat.add Datetime.zero_padded].
  rewrite field_number_snoc. unfold digit_step.
  match goal with H : Unicode.is_ascii_digit c = true |- _ =>
    rewrite (ascii_digit_value _ H);
    unfold Unicode.is_ascii_digit in H; apply andb_true_iff in H;
    destruct H as [L U]; apply N.leb_le in L, U
  end.
  replace ((field_number t * 10 + (Z.of_N c - 48)) / 10)%Z
    with (field_number t)
    by (Z.to_euclidean_division_equations; lia).
  replace ((field_number t * 10 + (Z.of_N c - 48)) mod 10)%Z
    with (Z.of_N c - 48)%Z
    by (Z.to_euclidean_division_equations; lia).
  rewrite (IH Ht). f_equal. f_equal. lia.
Qed.

Lemma strftime_is_ascii (t : Datetime.datetime) :
  ascii_dmY (Datetime.strftime Datetime.ZeroPadded t) = true.
Proof.
  unfold Datetime.strftime, Datetime.year_text.
  cbn [Datetime.zero_padded app]. unfold ascii_dmY.
  cbn [forallb]. rewrite !padded_digit_ascii. reflexivity.
Qed.

Lemma canonical_text_facts (s : str) (b : Birthday) :
  Birthday_init s = Ok b ->
  (Datetime.strftime Datetime.ZeroPadded (value b) = s
   <-> ascii_dmY s = true)
  /\ ascii_dmY (Datetime.strftime Datetime.ZeroPadded (value b)) = true.
Proof.
  intros H. split; [|apply strftime_is_ascii]. split.
  - intros <-. apply strftime_is_ascii.
  - intros A. apply Birthday_init_ok_iff in H. apply strptime_ok_iff in H.
    destruct H as (D & M & Y & E & HD & HM & HY & R & ->).
    do 11 (destruct s as [|? s]; try discriminate A).
    unfold ascii_dmY in A. cbn [forallb] in A.
    rewrite !andb_true_iff in A.
    destruct A as [[(A1 & A2 & A3 & A4 & A5 & A6 & A7 & A8 & _) P1] P2].
    unfold is_chr in P1, P2. apply N.eqb_eq in P1, P2. subst.
    fold dot in *.
    match goal with
    | E : [?d1; ?d2; dot; ?m1; ?m2; dot; ?y1; ?y2; ?y3; ?y4] = _ |- _ =>
        assert (ND : ~ In dot [d1; d2])
          by (intros [I|[I|[]]]; subst; discriminate);
        assert (NM : ~ In dot [m1; m2])
          by (intros [I|[I|[]]]; subst; discriminate);
        apply (@split_at_dot [d1; d2] D
                 ([m1; m2] ++ dot :: [y1; y2; y3; y4])
                 (M ++ [dot] ++ Y) ND (day_field_no_dot _ HD)) in E;
        destruct E as [<- E];
        apply (@split_at_dot [m1; m2] M [y1; y2; y3; y4] Y
                 NM (month_field_no_dot _ HM)) in E;
        destruct E as [<- <-]
    end.
    unfold Datetime.strftime, Datetime.year_text, midnight.
    cbn [Datetime.day Datetime.month Datetime.year value].
    match goal with
    | |- Datetime.zero_padded 2 (field_number ?D) ++ _
         ++ Datetime.zero_padded 2 (field_number ?M) ++ _
         ++ Datetime.zero_padded 4 (field_number ?Y) = _ =>
        pose proof (@zero_padded_field D) as ZD;
        pose proof (@zero_padded_field M) as ZM;
        pose proof (@zero_padded_field Y) as ZY;
        cbn [length] in ZD, ZM, ZY;
        rewrite ZD, ZM, ZY by (repeat constructor; assumption)
    end.
    reflexivity.
Qed.

(** X6. For a text that [Birthday] accepts, writing the stored date with
    ["%d.%m.%Y"] (year with four digits) gives the text back exactly
    when the text has the form DD.MM.YYYY with the digits 0-9; any other
    accepted text, such as 1.6.1990, comes back in that form and not as
    it was. *)
Theorem Birthday_text_is_kept_iff_canonical (s : str) (b : Birthday) :
  Birthday_init s = Ok b ->
  (Datetime.strftime Datetime.ZeroPadded (value b) = s
   <-> ascii_dmY s = true)
  /\ ascii_dmY (Datetime.strftime Datetime.ZeroPadded (value b)) = true.
Proof. apply canonical_text_facts. Qed.

Lemma Birthday_text_is_kept_iff_canonical_witness :
  (Datetime.strftime Datetime.ZeroPadded (value (mkField (midnight 1990 6 1)))
   = cps "1.6.1990"
   <-> ascii_dmY (cps "1.6.1990") = true)
  /\ ascii_dmY (Datetime.strftime Datetime.ZeroPadded
                  (value (mkField (midnight 1990 6 1)))) = true.
Proof.
  apply (@Birthday_text_is_kept_iff_canonical
           (cps "1.6.1990") (mkField (midnight 1990 6 1))).
  vm_compute. reflexivity.
Defined.

(** ** Further properties of the address book *)

Lemma dict_get_none d k : dict_get d k = None <-> ~ In k (dict_keys d).
Proof.
  rewrite <- dict_contains_keys. unfold dict_contains.
  destruct (dict_get d k); split; try congruence; intros H;
    exfalso; now apply H.
Qed.

Lemma dict_get_set_other d k v m :
  m <> k -> dict_get (dict_set d k v) m = dict_get d m.
Proof.
  intros N. induction d as [|[k' v'] d IH]; simpl.
  - replace (str_eqb k m) with false; [reflexivity|].
    symmetry. apply str_eqb_neq. congruence.
  - destruct (str_eqb k' k) eqn:E; simpl.
    + apply str_eqb_eq in E. subst k'.
      replace (str_eqb k m) with false; [reflexivity|].
      symmetry. apply str_eqb_neq. congruence.
    + now rewrite IH.
Qed.

Lemma dict_get_del_other d k m :
  m <> k -> dict_get (dict_del d k) m = dict_get d m.
Proof.
  intros N. induction d as [|[k' v'] d IH]; simpl; [reflexivity|].
  destruct (str_eqb k' k) eqn:E; simpl.
  - apply str_eqb_eq in E. subst k'.
    replace (str_eqb k m) with false; [reflexivity|].
    symmetry. apply str_eqb_neq. congruence.
  - now rewrite IH.
Qed.

Lemma dict_del_keys d k :
  NoDup (dict_keys d) ->
  dict_keys (dict_del d k)
  = List.filter (fun m => negb (str_eqb m k)) (dict_keys d).
Proof.
  induction d as [|[k' v'] d IH]; simpl; intros H; [reflexivity|].
  inversion H; subst. destruct (str_eqb k' k) eqn:E; simpl.
  - apply str_eqb_eq in E. subst k'.
    clear - H2. induction (dict_keys d) as [|a l IHl]; [reflexivity|].
    simpl. replace (str_eqb a k) with false.
    + simpl. f_equal. apply IHl. intros I. apply H2. now right.
    + symmetry. apply str_eqb_neq. intros ->. apply H2. now left.
  - f_equal. now apply IH.
Qed.

Lemma dict_del_absent d k : ~ In k (dict_keys d) -> dict_del d k = d.
Proof.
  induction d as [|[k' v'] d IH]; simpl; intros H; [reflexivity|].
  replace (str_eqb k' k) with false.
  - f_equal. apply IH. tauto.
  - symmetry. apply str_eqb_neq. tauto.
Qed.

Lemma dict_del_set_fresh d k v :
  ~ In k (dict_keys d) -> dict_del (dict_set d k v) k = d.
Proof.
  induction d as [|[k' v'] d IH]; simpl; intros H.
  - now rewrite str_eqb_refl.
  - replace (str_eqb k' k) with false
      by (symmetry; apply str_eqb_neq; tauto).
    simpl.
    replace (str_eqb k' k) with false
      by (symmetry; apply str_eqb_neq; tauto).
    f_equal. apply IH. tauto.
Qed.

Lemma delete_facts (book : AddressBook) (n : str) :
  NoDup (dict_keys (data book)) ->
  find (delete book n) n = None
  /\ (forall m, m <> n -> find (delete book n) m = find book m)
  /\ dict_keys (data (delete book n))
     = List.filter (fun m => negb (str_eqb m n)) (dict_keys (data book))
  /\ NoDup (dict_keys (data (delete book n)))
  /\ (find book n = None -> delete book n = book).
Proof.
  intros H. unfold find, delete.
  assert (K : dict_keys (dict_del (data book) n)
              = List.filter (fun m => negb (str_eqb m n))
                            (dict_keys (data book)))
    by now apply dict_del_keys.
  destruct (dict_contains (data book) n) eqn:C; simpl.
  - split; [|split; [|split; [|split]]].
    + apply dict_get_none. rewrite K. intros I. apply filter_In in I.
      destruct I as [_ I]. now rewrite str_eqb_refl in I.
    + intros m N. now apply dict_get_del_other.
    + exact K.
    + rewrite K. now apply NoDup_filter.
    + intros F. unfold dict_contains in C. now rewrite F in C.
  - assert (A : ~ In n (dict_keys (data book))).
    { intros I. apply dict_contains_keys in I. congruence. }
    split; [now apply dict_get_none|]. split; [reflexivity|].
    split; [|split; [exact H|reflexivity]].
    rewrite <- K. now rewrite dict_del_absent.
Qed.

(** X7. In a book, [delete] of a name leaves no entry under it and does
    not touch the others: every other name is found as before, the
    remaining names keep their order, and deleting a name that is not
    there changes nothing at all. *)
Theorem delete_removes_only_that (book : AddressBook) (n : str) :
  NoDup (dict_keys (data book)) ->
  find (delete book n) n = None
  /\ (forall m, m <> n -> find (delete book n) m = find book m)
  /\ dict_keys (data (delete book n))
     = List.filter (fun m => negb (str_eqb m n)) (dict_keys (data book))
  /\ NoDup (dict_keys (data (delete book n)))
  /\ (find book n = None -> delete book n = book).
Proof. apply delete_facts. Qed.

Lemma delete_removes_only_that_witness :
  find (delete bob_and_alice (cps "Bob")) (cps "Bob") = None
  /\ (forall m, m <> cps "Bob" ->
                find (delete bob_and_alice (cps "Bob")) m
                = find bob_and_alice m)
  /\ dict_keys (data (delete bob_and_alice (cps "Bob")))
     = List.filter (fun m => negb (str_eqb m (cps "Bob")))
                   (dict_keys (data bob_and_alice))
  /\ NoDup (dict_keys (data (delete bob_and_alice (cps "Bob"))))
  /\ (find bob_and_alice (cps "Bob") = None ->
      delete bob_and_alice (cps "Bob") = bob_and_alice).
Proof.
  apply (@delete_removes_only_that bob_and_alice (cps "Bob")).
  simpl. repeat constructor; simpl; intros H.
  - destruct H as [H|[]]. discriminate H.
  - destruct H.
Defined.

(** X8. [add_record] does not touch the entries under other names, and
    keeps the order of the book: a name that is already there keeps its
    place, a new name goes last. *)
Theorem add_record_keeps_others (book : AddressBook) (r : Record_) :
  (forall m, m <> value (name r) ->
             find (add_record book r) m = find book m)
  /\ dict_keys (data (add_record book r))
     = match find book (value (name r)) with
       | Some _ => dict_keys (data book)
       | None => dict_keys (data book) ++ [value (name r)]
       end.
Proof.
  unfold find, add_record. simpl. split.
  - intros m N. now apply dict_get_set_other.
  - rewrite dict_set_keys. unfold dict_contains.
    now destruct (dict_get (data book) (value (name r))).
Qed.

(** X9. Adding a record under a name the book does not have and then
    deleting that name gives back the book as it was. *)
Theorem add_then_delete (book : AddressBook) (r : Record_) :
  find book (value (name r)) = None ->
  delete (add_record book r) (value (name r)) = book.
Proof.
  intros F. unfold find in F. apply dict_get_none in F.
  unfold delete, add_record, dict_contains. simpl.
  rewrite dict_get_set, (@dict_del_set_fresh _ _ r F). now destruct book.
Qed.

Lemma add_then_delete_witness :
  delete (add_record only_alice bob) (value (name bob)) = only_alice.
Proof.
  apply add_then_delete. reflexivity.
Defined.

(** ** Further properties of the birthday query *)

Section UpcomingMore.
Local Open Scope Z_scope.

Lemma upcoming_loop_filter today days (f : Record_ -> bool) records :
  (forall r, In r records -> is_upcoming today days r = Ok (f r)) ->
  forall acc,
    upcoming_loop today days records acc = Ok (acc ++ List.filter f records).
Proof.
  induction records as [|x rs IH]; intros H acc; simpl.
  - now rewrite app_nil_r.
  - rewrite (H x (or_introl eq_refl)). simpl.
    rewrite (IH (fun r Hr => H r (or_intror Hr))).
    destruct (f x); [now rewrite <- app_assoc|reflexivity].
Qed.

Lemma upcoming_is_filter book days today :
  valid_datetime today ->
  1 <= Datetime.toordinal today + days <= Datetime._MAXORDINAL ->
  projections_exist book (Datetime.year today) ->
  get_upcoming_birthdays book days today
  = Ok (List.filter (listed today days) (dict_values (data book))).
Proof.
  intros V H P. unfold get_upcoming_birthdays.
  rewrite (@upcoming_loop_filter today days (listed today days)).
  - reflexivity.
  - intros r I. rewrite (@is_upcoming_spec today days r V H). unfold listed.
    destruct (birthday r) as [b|] eqn:B; [|reflexivity].
    destruct (P r b I B) as [p ->]. reflexivity.
Qed.

(** X10. When every birthday has a projection and the end of the window
    is a date the calendar has, the list of upcoming birthdays is the
    list of the records of the book, in the order of the book, with
    those left out whose projected birthday is outside the window:
    nothing is reordered, repeated or added. *)
Theorem upcoming_in_book_order
        (book : AddressBook) (days : Z) (today : Datetime.datetime) :
  valid_datetime today ->
  1 <= Datetime.toordinal today + days <= Datetime._MAXORDINAL ->
  projections_exist book (Datetime.year today) ->
  get_upcoming_birthdays book days today
  = Ok (List.filter (listed today days) (dict_values (data book)))
  /\ forall r, listed today days r = true ->
               exists b p,
                 birthday r = Some b
                 /\ Datetime.replace_year (value b) (Datetime.year today)
                    = Ok p
                 /\ instant today <= instant p
                    <= instant today + days * microseconds_per_day.
Proof.
  intros V H P. split; [now apply upcoming_is_filter|].
  intros r L. unfold listed in L.
  destruct (birthday r) as [b|]; [|discriminate].
  destruct (Datetime.replace_year (value b) (Datetime.year today))
    as [p|] eqn:R; [|discriminate].
  unfold in_window in L. apply andb_true_iff in L. destruct L as [L1 L2].
  apply Z.leb_le in L1, L2. exists b, p. auto.
Qed.

Lemma today_2024_06_10_valid : valid_datetime (midnight 2024 6 10).
Proof.
  unfold valid_datetime, real_date. simpl.
  change (Datetime._days_in_month 2024 6) with 30. lia.
Qed.

Lemma only_alice_projects : projections_exist only_alice 2024.
Proof.
  intros r b [<-|[]] B. simpl in B. inversion B; subst b.
  eexists. vm_compute. reflexivity.
Qed.

Lemma upcoming_in_book_order_witness :
  get_upcoming_birthdays only_alice 7 (midnight 2024 6 10)
  = Ok (List.filter (listed (midnight 2024 6 10) 7)
                    (dict_values (data only_alice)))
  /\ forall r, listed (midnight 2024 6 10) 7 r = true ->
               exists b p,
                 birthday r = Some b
                 /\ Datetime.replace_year
                      (value b) (Datetime.year (midnight 2024 6 10)) = Ok p
                 /\ instant (midnight 2024 6 10) <= instant p
                    <= instant (midnight 2024 6 10)
                       + 7 * microseconds_per_day.
Proof.
  apply (@upcoming_in_book_order only_alice 7 (midnight 2024 6 10)).
  - exact today_2024_06_10_valid.
  - vm_compute. split; discriminate.
  - exact only_alice_projects.
Defined.

(** The window, counted in days, for a birthday kept at midnight. *)
Lemma in_window_days today days p :
  valid_datetime today -> valid_datetime p -> time_of_day p = 0 ->
  in_window today days p = true
  <-> ((if time_of_day today =? 0
        then Datetime.toordinal today <= Datetime.toordinal p
        else Datetime.toordinal today < Datetime.toordinal p)
       /\ Datetime.toordinal p <= Datetime.toordinal today + days).
Proof.
  intros V Vp T. pose proof (time_of_day_bounds V) as B.
  unfold in_window. rewrite andb_true_iff, !Z.leb_le, !instant_split, T.
  unfold microseconds_per_day in *.
  destruct (Z.eqb_spec (time_of_day today) 0) as [E|E]; lia.
Qed.

(** X11. When every stored birthday is a valid date kept at midnight
    and has a projection onto the year of the reference instant, and the
    end of the window is a date the calendar has, the query returns a
    list and, counted in days, a record is in it exactly when the date
    of its birthday in the reference year is after the reference day and
    at most [days] days after it; the reference day itself counts only
    when the reference instant is midnight sharp.  So a birthday that is
    today is not listed at any later time of the day, whatever the
    window. *)
Theorem upcoming_window_in_days
        (book : AddressBook) (days : Z) (today : Datetime.datetime) :
  valid_datetime today ->
  1 <= Datetime.toordinal today + days <= Datetime._MAXORDINAL ->
  projections_exist book (Datetime.year today) ->
  (forall r, In r (dict_values (data book)) -> birthday_valid r) ->
  exists res,
    get_upcoming_birthdays book days today = Ok res
    /\ forall r,
      In r res
      <-> In r (dict_values (data book))
          /\ exists b,
            birthday r = Some b
            /\ let day_of_birthday :=
                 Datetime._ymd2ord (Datetime.year today)
                                   (Datetime.month (value b))
                                   (Datetime.day (value b)) in
               (if time_of_day today =? 0
                then Datetime.toordinal today <= day_of_birthday
                else Datetime.toordinal today < day_of_birthday)
               /\ day_of_birthday <= Datetime.toordinal today + days.
Proof.
  intros V H P M. eexists. split; [now apply upcoming_is_filter|].
  intros r. rewrite filter_In. unfold listed.
  split.
  - intros [I L]. split; [exact I|].
    destruct (birthday r) as [b|] eqn:B; [|discriminate].
    destruct (Datetime.replace_year (value b) (Datetime.year today))
      as [p|] eqn:R; [|discriminate].
    exists b. split; [reflexivity|].
    destruct (M r I b B) as [Vb Tb].
    unfold Datetime.replace_year in R. apply new_valid in R.
    destruct R as [Vp ->].
    apply (in_window_days days V Vp Tb) in L. exact L.
  - intros (I & b & B & L). split; [exact I|]. rewrite B.
    destruct (P r b I B) as [p R]. rewrite R.
    destruct (M r I b B) as [Vb Tb].
    unfold Datetime.replace_year in R. apply new_valid in R.
    destruct R as [Vp ->].
    now apply (in_window_days days V Vp Tb).
Qed.

Lemma only_alice_birthdays_valid :
  forall r, In r (dict_values (data only_alice)) -> birthday_valid r.
Proof.
  intros r [<-|[]] b B. simpl in B. inversion B; subst b. simpl.
  split; [|reflexivity].
  unfold valid_datetime, real_date. simpl.
  change (Datetime._days_in_month 1990 6) with 30. lia.
Qed.

Lemma upcoming_window_in_days_witness :
  exists res,
    get_upcoming_birthdays only_alice 7 (midnight 2024 6 10) = Ok res
    /\ forall r,
      In r res
      <-> In r (dict_values (data only_alice))
          /\ exists b,
            birthday r = Some b
            /\ let day_of_birthday :=
                 Datetime._ymd2ord (Datetime.year (midnight 2024 6 10))
                                   (Datetime.month (value b))
                                   (Datetime.day (value b)) in
               (if time_of_day (midnight 2024 6 10) =? 0
                then Datetime.toordinal (midnight 2024 6 10)
                     <= day_of_birthday
                else Datetime.toordinal (midnight 2024 6 10)
                     < day_of_birthday)
               /\ day_of_birthday
                  <= Datetime.toordinal (midnight 2024 6 10) + 7.
Proof.
  apply (@upcoming_window_in_days only_alice 7 (midnight 2024 6 10)).
  - exact today_2024_06_10_valid.
  - vm_compute. split; discriminate.
  - exact only_alice_projects.
  - exact only_alice_birthdays_valid.
Defined.

Lemma in_window_mono today days days' p :
  days <= days' ->
  in_window today days p = true -> in_window today days' p = true.
Proof.
  unfold in_window, microseconds_per_day. rewrite !andb_true_iff, !Z.leb_le.
  lia.
Qed.

(** X12. A longer window lists at least what a shorter one lists: every
    record in the list for [days] days is in the list for any [days']
    not smaller. *)
Theorem upcoming_grows_with_window
        (book : AddressBook) (days days' : Z) (today : Datetime.datetime) :
  valid_datetime today ->
  1 <= Datetime.toordinal today + days ->
  days <= days' ->
  Datetime.toordinal today + days' <= Datetime._MAXORDINAL ->
  projections_exist book (Datetime.year today) ->
  exists res res',
    get_upcoming_birthdays book days today = Ok res
    /\ get_upcoming_birthdays book days' today = Ok res'
    /\ incl res res'.
Proof.
  intros V L1 L2 L3 P.
  do 2 eexists. split; [apply upcoming_is_filter; auto; lia|].
  split; [apply upcoming_is_filter; auto; lia|].
  intros r I. apply filter_In in I. destruct I as [I L].
  apply filter_In. split; [exact I|]. unfold listed in *.
  destruct (birthday r) as [b|]; [|discriminate].
  destruct (Datetime.replace_year (value b) (Datetime.year today))
    as [p|]; [|discriminate].
  now apply (in_window_mono today p L2).
Qed.

Lemma upcoming_grows_with_window_witness :
  exists res res',
    get_upcoming_birthdays only_alice 3 (midnight 2024 6 10) = Ok res
    /\ get_upcoming_birthdays only_alice 7 (midnight 2024 6 10) = Ok res'
    /\ incl res res'.
Proof.
  apply (@upcoming_grows_with_window only_alice 3 7 (midnight 2024 6 10)).
  - exact today_2024_06_10_valid.
  - vm_compute. discriminate.
  - lia.
  - vm_compute. discriminate.
  - exact only_alice_projects.
Defined.

Lemma upcoming_loop_listed today days records :
  forall acc res,
    upcoming_loop today days records acc = Ok res ->
    forall r, In r res -> In r acc \/ is_upcoming today days r = Ok true.
Proof.
  induction records as [|x rs IH]; intros acc res H r I; simpl in H.
  - inversion H; subst. auto.
  - destruct (is_upcoming today days x) as [k|] eqn:U; [|discriminate].
    simpl in H. destruct (IH _ _ H r I) as [A|A]; [|auto].
    destruct k; [|auto]. apply in_app_iff in A.
    destruct A as [A|[<-|[]]]; auto.
Qed.

Lemma upcoming_ok_projections book days today res :
  valid_datetime today ->
  1 <= Datetime.toordinal today + days <= Datetime._MAXORDINAL ->
  get_upcoming_birthdays book days today = Ok res ->
  projections_exist book (Datetime.year today).
Proof.
  intros V H G r b I B.
  destruct (Datetime.replace_year (value b) (Datetime.year today))
    as [p|e] eqn:R; [eauto|].
  exfalso. unfold get_upcoming_birthdays in G.
  destruct (@upcoming_loop_raises today days (dict_values (data book)))
    with (acc := @nil Record_) as [e' E'].
  - exists r, e. split; [exact I|].
    rewrite (@is_upcoming_spec today days r V H), B, R. reflexivity.
  - congruence.
Qed.

(** X13. For a negative number of days, the end of the window still
    being a date the calendar has, the query never returns a record: it
    returns the empty list exactly when every stored birthday has a
    projection onto the year of the reference instant, and otherwise it
    does not return, so whatever list it returns is empty.  No birthday
    is both at or after the reference instant and before it. *)
Theorem upcoming_negative_window_is_empty
        (book : AddressBook) (days : Z) (today : Datetime.datetime) :
  valid_datetime today ->
  days < 0 ->
  1 <= Datetime.toordinal today + days ->
  (get_upcoming_birthdays book days today = Ok []
   <-> projections_exist book (Datetime.year today))
  /\ (forall res, get_upcoming_birthdays book days today = Ok res ->
                  res = []).
Proof.
  intros V N L.
  pose proof (ymd2ord_bounds (proj1 V)) as Bo.
  fold (Datetime.toordinal today) in Bo.
  assert (H : 1 <= Datetime.toordinal today + days <= Datetime._MAXORDINAL)
    by lia.
  assert (E : forall res, get_upcoming_birthdays book days today = Ok res ->
                          res = []).
  { intros res G. destruct res as [|r res]; [reflexivity|]. exfalso.
    destruct (@upcoming_loop_listed today days _ _ _ G r (or_introl eq_refl))
      as [[]|U].
    rewrite (@is_upcoming_spec today days r V H) in U.
    destruct (birthday r) as [b|]; [|discriminate].
    destruct (Datetime.replace_year (value b) (Datetime.year today))
      as [p|]; [|discriminate].
    inversion U as [W]. unfold in_window, microseconds_per_day in W.
    apply andb_true_iff in W. rewrite !Z.leb_le in W. lia. }
  split; [split|exact E].
  - intros G. exact (@upcoming_ok_projections book days today _ V H G).
  - intros P. pose proof (@upcoming_is_filter book days today V H P) as G.
    rewrite G. f_equal. exact (E _ G).
Qed.

Lemma upcoming_negative_window_is_empty_witness :
  (get_upcoming_birthdays only_alice (-3) (midnight 2024 6 10) = Ok []
   <-> projections_exist only_alice (Datetime.year (midnight 2024 6 10)))
  /\ (forall res,
         get_upcoming_birthdays only_alice (-3) (midnight 2024 6 10) = Ok res
         -> res = []).
Proof.
  apply (@upcoming_negative_window_is_empty
           only_alice (-3) (midnight 2024 6 10)).
  - exact today_2024_06_10_valid.
  - lia.
  - vm_compute. discriminate.
Defined.

End UpcomingMore.

(** ** The command handlers of Task_1.py *)

Lemma dict_set_same d k v : dict_get d k = Some v -> dict_set d k v = d.
Proof.
  induction d as [|[k' v'] d IH]; simpl; [discriminate|].
  destruct (str_eqb k' k) eqn:E.
  - intros H. inversion H. reflexivity.
  - intros H. now rewrite IH.
Qed.

Lemma update_record_same book k r :
  find book k = Some r -> update_record book k r = book.
Proof.
  intros F. unfold update_record. rewrite (dict_set_same _ _ F).
  now destruct book.
Qed.

Lemma find_update_record book k r m :
  find (update_record book k r) m
  = if str_eqb k m then Some r else find book m.
Proof.
  unfold find, update_record. simpl.
  destruct (str_eqb k m) eqn:E.
  - apply str_eqb_eq in E. subst m. apply dict_get_set.
  - apply str_eqb_neq in E. apply dict_get_set_other. congruence.
Qed.

(** X14. [handle_add_contact] is all or nothing.  With an invalid phone,
    or with a birthday text that is given and invalid, it returns the
    text of the error and the book is what it was.  Otherwise it
    reports success and puts into the book, under the name, a new record
    with that one phone (and the birthday): a contact that was there
    under the name is replaced, its other phones are gone. *)
Theorem handle_add_contact_all_or_nothing
        (library_text : message -> str) (book : AddressBook)
        (name phone email : str) (favorite : bool) (birthday : option str) :
  let reply :=
    Task_1.handle_add_contact library_text book name phone email favorite
                              birthday in
  let added b :=
    (Done (cps "Contact " ++ name ++ cps " added successfully."),
     add_record book (mkRecord (mkField name) [mkField phone] b)) in
  (~ valid_phone phone /\ reply = (Done invalid_phone_text, book))
  \/ (valid_phone phone /\ (birthday = None \/ birthday = Some [])
      /\ reply = added None)
  \/ (valid_phone phone
      /\ exists s, birthday = Some s /\ s <> []
         /\ ((exists b, Birthday_init s = Ok b /\ reply = added (Some b))
             \/ ((forall b, Birthday_init s <> Ok b)
                 /\ reply = (Done invalid_date_text, book)))).
Proof.
  intros reply added. subst reply added.
  unfold Task_1.handle_add_contact, Task_1.new_contact, Record_init.
  destruct (valid_phone_dec phone) as [V|V].
  - right. rewrite (add_phone_valid _ V). simpl.
    destruct birthday as [[|c s]|].
    + left. auto.
    + right. split; [exact V|]. exists (c :: s).
      split; [reflexivity|]. split; [discriminate|].
      destruct (add_birthday_sets_or_keeps_aux
                  (mkRecord (mkField name) [mkField phone] None) (c :: s))
        as [(b & B & ->)|(B & ->)].
      * left. exists b. auto.
      * right. auto.
    + left. auto.
  - left. rewrite (add_phone_rejects _ V). auto.
Qed.

(** X15. After [handle_remove_contact] for a name, [handle_get_contact]
    for that name answers "not found", whether the name was there or
    not, and answers for every other name what it answered before. *)
Theorem removed_contact_is_not_found
        (libc : Datetime.year_format) (book : AddressBook) (name : str) :
  NoDup (dict_keys (data book)) ->
  let book' := snd (Task_1.handle_remove_contact book name) in
  Task_1.handle_get_contact libc book' name
  = cps "Contact " ++ name ++ cps " not found."
  /\ (forall other, other <> name ->
                    Task_1.handle_get_contact libc book' other
                    = Task_1.handle_get_contact libc book other)
  /\ (find book name = None -> book' = book).
Proof.
  intros H. simpl.
  unfold Task_1.handle_remove_contact, Task_1.handle_get_contact.
  destruct (delete_facts book name H) as (D1 & D2 & _).
  destruct (find book name) eqn:F; simpl.
  - rewrite D1. split; [reflexivity|]. split; [|discriminate].
    intros other N. now rewrite (D2 other N).
  - rewrite F. split; [reflexivity|]. split; [reflexivity|reflexivity].
Qed.

Lemma removed_contact_is_not_found_witness :
  let book' := snd (Task_1.handle_remove_contact bob_and_alice (cps "Bob")) in
  Task_1.handle_get_contact Datetime.ZeroPadded book' (cps "Bob")
  = cps "Contact " ++ cps "Bob" ++ cps " not found."
  /\ (forall other, other <> cps "Bob" ->
                    Task_1.handle_get_contact Datetime.ZeroPadded book' other
                    = Task_1.handle_get_contact Datetime.ZeroPadded
                        bob_and_alice other)
  /\ (find bob_and_alice (cps "Bob") = None -> book' = bob_and_alice).
Proof.
  apply (@removed_contact_is_not_found
           Datetime.ZeroPadded bob_and_alice (cps "Bob")).
  simpl. repeat constructor; simpl; intros H.
  - destruct H as [H|[]]. discriminate H.
  - destruct H.
Defined.

(** X16. [handle_edit_contact_phone] for a contact that does not have
    the old number reports "Phone number updated" although nothing was
    changed, and does so even when the new number is not valid. *)
Theorem edit_handler_reports_update_without_change
        (library_text : message -> str) (book : AddressBook)
        (name old_phone new_phone : str) (record : Record_) :
  find book name = Some record ->
  ~ In old_phone (List.map (@value str) (phones record)) ->
  Task_1.handle_edit_contact_phone library_text book name old_phone new_phone
  = (Done (cps "Phone number updated for contact " ++ name ++ cps "."),
     book).
Proof.
  intros F N. unfold Task_1.handle_edit_contact_phone. rewrite F.
  apply find_in_none in N.
  rewrite (@edit_phone_absent record old_phone new_phone N).
  now rewrite (update_record_same _ _ F).
Qed.

Lemma edit_handler_reports_update_without_change_witness :
  Task_1.handle_edit_contact_phone (fun _ => []) only_alice (cps "Alice")
    (cps "0679876543") (cps "not a number")
  = (Done (cps "Phone number updated for contact " ++ cps "Alice"
           ++ cps "."),
     only_alice).
Proof.
  apply (@edit_handler_reports_update_without_change
           (fun _ => []) only_alice (cps "Alice") (cps "0679876543")
           (cps "not a number") alice).
  - reflexivity.
  - simpl. intros [H|[]]. discriminate H.
Defined.

(** X17. [handle_edit_contact_phone] with an old number the contact has
    and a new number that is not valid answers with the text of the
    invalid-phone error, and the contact in the book has lost the old
    number: the first phone with that value is gone (no phone before it
    has the value), the other phones keep their order and nothing took
    its place.  The other contacts are as they were. *)
Theorem edit_handler_loses_phone_on_invalid
        (library_text : message -> str) (book : AddressBook)
        (contact old_phone new_phone : str) (record : Record_) :
  find book contact = Some record ->
  In old_phone (List.map (@value str) (phones record)) ->
  ~ valid_phone new_phone ->
  exists l1 p l2 book',
    phones record = l1 ++ p :: l2 /\ value p = old_phone
    /\ ~ In old_phone (List.map (@value str) l1)
    /\ Task_1.handle_edit_contact_phone library_text book contact
         old_phone new_phone
       = (Done invalid_phone_text, book')
    /\ find book' contact
       = Some (mkRecord (name record) (l1 ++ l2) (birthday record))
    /\ (forall other, other <> contact -> find book' other = find book other).
Proof.
  intros F I V.
  destruct (find_in (phones record) old_phone) as [p|] eqn:Fi;
    [|apply find_in_none in Fi; tauto].
  destruct (@edit_phone_found record old_phone new_phone p Fi)
    as (l1 & l2 & E & N & Ed).
  rewrite (add_phone_rejects _ V) in Ed.
  exists l1, p, l2. eexists.
  split; [exact E|]. split; [eapply find_in_value; eauto|].
  split; [now apply find_in_none|].
  unfold Task_1.handle_edit_contact_phone. rewrite F, Ed.
  split; [reflexivity|]. split.
  - rewrite find_update_record. now rewrite str_eqb_refl.
  - intros other N'. rewrite find_update_record.
    replace (str_eqb contact other) with false; [reflexivity|].
    symmetry. apply str_eqb_neq. congruence.
Qed.

Lemma edit_handler_loses_phone_on_invalid_witness :
  let record :=
    mkRecord (mkField (cps "Alice"))
             [mkField (cps "0679876543"); mkField (cps "0501234567");
              mkField (cps "0501234567")] None in
  let book := add_record only_alice record in
  exists l1 p l2 book',
    phones record = l1 ++ p :: l2 /\ value p = cps "0501234567"
    /\ ~ In (cps "0501234567") (List.map (@value str) l1)
    /\ Task_1.handle_edit_contact_phone (fun _ => []) book
         (cps "Alice") (cps "0501234567") (cps "12345")
       = (Done invalid_phone_text, book')
    /\ find book' (cps "Alice")
       = Some (mkRecord (name record) (l1 ++ l2) (birthday record))
    /\ (forall other, other <> cps "Alice" ->
                      find book' other = find book other).
Proof.
  intros record book.
  apply (@edit_handler_loses_phone_on_invalid
           (fun _ => []) book (cps "Alice") (cps "0501234567")
           (cps "12345") record).
  - reflexivity.
  - simpl. auto.
  - intros [L _]. discriminate L.
Defined.

Lemma upcoming_loop_members today days records :
  forall acc res,
    upcoming_loop today days records acc = Ok res ->
    forall r, In r res -> In r acc \/ birthday r <> None.
Proof.
  induction records as [|x rs IH]; intros acc res H r I; simpl in H.
  - inversion H; subst. auto.
  - destruct (is_upcoming today days x) as [k|] eqn:U; [|discriminate].
    simpl in H. destruct (IH _ _ H r I) as [A|A]; [|auto].
    destruct k; [|auto]. apply in_app_iff in A.
    destruct A as [A|[<-|[]]]; [auto|]. right.
    unfold is_upcoming in U. destruct (birthday x); congruence.
Qed.

Lemma birthday_lines_map libc (records : list Record_) :
  (forall r, In r records -> birthday r <> None) ->
  birthday_lines libc records
  = Done (List.map (birthday_text libc) records).
Proof.
  induction records as [|x rs IH]; intros H; [reflexivity|].
  simpl. unfold birthday_line, birthday_text at 1.
  destruct (birthday x) eqn:B; [|now destruct (H x (or_introl eq_refl))].
  rewrite IH; [reflexivity|]. intros r I. apply H. now right.
Qed.

Lemma handle_upcoming_birthdays_cases libc book days today :
  Task_1.handle_upcoming_birthdays libc book days today
  = match get_upcoming_birthdays book days today with
    | Raise e => Fail (FromCore e)
    | Ok [] => Done (cps "No upcoming birthdays within the next week.")
    | Ok res =>
        Done (join newline
                (cps "Upcoming birthdays:"
                 :: List.map (birthday_text libc) res))
    end.
Proof.
  unfold Task_1.handle_upcoming_birthdays.
  destruct (get_upcoming_birthdays book days today) as [res|e] eqn:G;
    [|reflexivity].
  destruct res as [|x rs]; [reflexivity|].
  rewrite birthday_lines_map; [reflexivity|].
  intros r I. unfold get_upcoming_birthdays in G.
  destruct (upcoming_loop_members _ _ _ _ G r I) as [[]|A]. exact A.
Qed.

(** X18. [handle_upcoming_birthdays] of Task_1.py catches nothing: when
    the query raises, the [ValueError] for a birthday on 29 February in
    a year that is not a leap year included, the handler raises the same
    exception.  When the query returns it never fails: every listed
    record has a birthday to print, and the text is the fixed line for
    an empty list or the heading followed by one line for each record. *)
Theorem handle_upcoming_birthdays_outcomes
        (libc : Datetime.year_format) (book : AddressBook) (days : Z)
        (today : Datetime.datetime) :
  Task_1.handle_upcoming_birthdays libc book days today
  = match get_upcoming_birthdays book days today with
    | Raise e => Fail (FromCore e)
    | Ok [] => Done (cps "No upcoming birthdays within the next week.")
    | Ok res =>
        Done (join newline
                (cps "Upcoming birthdays:"
                 :: List.map (birthday_text libc) res))
    end.
Proof. apply handle_upcoming_birthdays_cases. Qed.

(** ** The command handlers of Task_2.py *)

(** X19. [birthdays] of Task_2.py answers what
    [handle_upcoming_birthdays] of Task_1.py answers for the same number
    of days (7 without an argument), except that a [ValueError] becomes
    its text: the failure for a birthday on 29 February is printed and
    the program goes on, and so is the failure of [int] on the argument.
    An [OverflowError] is not caught.  The book is not changed. *)
Theorem birthdays_is_the_caught_handler
        (library_text : message -> str) (unpack_text : nat -> bool -> nat -> str)
        (libc : Datetime.year_format) (int : str -> option Z)
        (today : Datetime.datetime) (args : list str) (book : AddressBook) :
  Task_2.birthdays library_text unpack_text libc int today args book
  = match args with
    | [] =>
        (catch_value_error library_text
           (Task_1.handle_upcoming_birthdays libc book 7 today), book)
    | a :: _ =>
        match int a with
        | Some days =>
            (catch_value_error library_text
               (Task_1.handle_upcoming_birthdays libc book days today),
             book)
        | None => (Done (library_text InvalidLiteral), book)
        end
    end.
Proof.
  unfold Task_2.birthdays, Task_2.input_error, Task_2.birthdays_func.
  destruct args as [|a rest];
    [|destruct (int a) as [days|]; [|reflexivity]];
    rewrite handle_upcoming_birthdays_cases;
    (destruct (get_upcoming_birthdays book _ today) as [res|e] eqn:G;
     [destruct res as [|x rs]; [reflexivity|];
      rewrite birthday_lines_map; [reflexivity|];
      intros r I; unfold get_upcoming_birthdays in G;
      destruct (upcoming_loop_members _ _ _ _ G r I) as [[]|A]; exact A
     |destruct e; reflexivity]).
Qed.

Lemma valid_phone_not_empty (phone : str) : valid_phone phone -> phone <> [].
Proof. intros [L _] ->. discriminate L. Qed.

(** X20. [add_contact] of Task_2.py, for a name the book has, answers
    "Contact updated." and adds the phone to the record that is there:
    the phones it had stay, in their order, the new one comes last, and
    the birthday and every other contact stay as they were.  (The
    handler of Task_1.py replaces the record instead.) *)
Theorem add_contact_updates_existing
        (library_text : message -> str)
        (unpack_text : nat -> bool -> nat -> str)
        (book : AddressBook) (contact phone : str) (rest : list str)
        (record : Record_) :
  find book contact = Some record ->
  valid_phone phone ->
  exists book',
    Task_2.add_contact library_text unpack_text (contact :: phone :: rest) book
    = (Done (cps "Contact updated."), book')
    /\ find book' contact
       = Some (mkRecord (name record) (phones record ++ [mkField phone])
                        (birthday record))
    /\ (forall other, other <> contact -> find book' other = find book other)
    /\ dict_keys (data book') = dict_keys (data book).
Proof.
  intros F V. pose proof (valid_phone_not_empty V) as N.
  unfold Task_2.add_contact, Task_2.input_error, Task_2.add_contact_func.
  rewrite F. destruct phone as [|c phone]; [congruence|].
  rewrite (add_phone_valid record V). eexists. split; [reflexivity|].
  split; [|split].
  - rewrite find_update_record. now rewrite str_eqb_refl.
  - intros other O. rewrite find_update_record.
    replace (str_eqb contact other) with false; [reflexivity|].
    symmetry. apply str_eqb_neq. congruence.
  - unfold update_record. simpl. rewrite dict_set_keys.
    unfold dict_contains. unfold find in F. now rewrite F.
Qed.

Lemma add_contact_updates_existing_witness :
  exists book',
    Task_2.add_contact (fun _ => []) (fun _ _ _ => [])
      (cps "Alice" :: cps "0679876543" :: []) only_alice
    = (Done (cps "Contact updated."), book')
    /\ find book' (cps "Alice")
       = Some (mkRecord (name alice)
                        (phones alice ++ [mkField (cps "0679876543")])
                        (birthday alice))
    /\ (forall other, other <> cps "Alice" ->
                      find book' other = find only_alice other)
    /\ dict_keys (data book') = dict_keys (data only_alice).
Proof.
  apply (@add_contact_updates_existing
           (fun _ => []) (fun _ _ _ => []) only_alice
           (cps "Alice") (cps "0679876543") [] alice).
  - reflexivity.
  - split; [reflexivity|]. repeat constructor.
Defined.

(** X21. [add_contact] of Task_2.py, for a name the book does not have
    and a phone that is not valid, answers with the text of the
    invalid-phone error, but the contact has been created: the book now
    holds a record under the name, with no phone and no birthday. *)
Theorem add_contact_leaves_empty_contact
        (library_text : message -> str)
        (unpack_text : nat -> bool -> nat -> str)
        (book : AddressBook) (contact phone : str) (rest : list str) :
  find book contact = None ->
  phone <> [] ->
  ~ valid_phone phone ->
  Task_2.add_contact library_text unpack_text (contact :: phone :: rest) book
  = (Done invalid_phone_text,
     add_record book (mkRecord (mkField contact) [] None))
  /\ find (add_record book (mkRecord (mkField contact) [] None)) contact
     = Some (mkRecord (mkField contact) [] None).
Proof.
  intros F N V.
  unfold Task_2.add_contact, Task_2.input_error, Task_2.add_contact_func.
  rewrite F. destruct phone as [|c phone]; [congruence|].
  unfold Record_init. cbv beta iota.
  rewrite (add_phone_rejects _ V). simpl.
  split.
  - f_equal. apply update_record_same.
    apply (find_add_record book (mkRecord (mkField contact) [] None)).
  - apply (find_add_record book (mkRecord (mkField contact) [] None)).
Qed.

Lemma add_contact_leaves_empty_contact_witness :
  Task_2.add_contact (fun _ => []) (fun _ _ _ => [])
    (cps "Carol" :: cps "12345" :: []) only_alice
  = (Done invalid_phone_text,
     add_record only_alice (mkRecord (mkField (cps "Carol")) [] None))
  /\ find (add_record only_alice (mkRecord (mkField (cps "Carol")) [] None))
          (cps "Carol")
     = Some (mkRecord (mkField (cps "Carol")) [] None).
Proof.
  apply (@add_contact_leaves_empty_contact
           (fun _ => []) (fun _ _ _ => []) only_alice
           (cps "Carol") (cps "12345") []).
  - reflexivity.
  - discriminate.
  - intros [L _]. discriminate L.
Defined.

(** X22. A wrong number of arguments: [add_contact] with fewer than two,
    [change_phone] with other than three and [add_birthday] with other
    than two raise the [ValueError] of the unpacking, which
    [input_error] turns into its text, and the book is not touched.
    [show_phone] and [show_birthday] without an argument raise
    [IndexError], which [input_error] does not catch. *)
Theorem handlers_on_wrong_argument_count
        (library_text : message -> str)
        (unpack_text : nat -> bool -> nat -> str)
        (libc : Datetime.year_format)
        (args : list str) (book : AddressBook) :
  ((length args < 2)%nat ->
   Task_2.add_contact library_text unpack_text args book
   = (Done (unpack_text 2%nat true (length args)), book))
  /\ (length args <> 3%nat ->
      Task_2.change_phone library_text unpack_text args book
      = (Done (unpack_text 3%nat false (length args)), book))
  /\ (length args <> 2%nat ->
      Task_2.add_birthday library_text unpack_text args book
      = (Done (unpack_text 2%nat false (length args)), book))
  /\ Task_2.show_phone library_text unpack_text [] book
     = (Fail IndexError, book)
  /\ Task_2.show_birthday library_text unpack_text libc [] book
     = (Fail IndexError, book).
Proof.
  split; [|split; [|split; [|split]]]; try reflexivity.
  - intros L. destruct args as [|a [|b args]]; simpl in L;
      [reflexivity|reflexivity|lia].
  - intros L. destruct args as [|a [|b [|c [|d args]]]]; simpl in L;
      try reflexivity. congruence.
  - intros L. destruct args as [|a [|b [|c args]]]; simpl in L;
      try reflexivity. congruence.
Qed.

(** ** [parse_input] *)

Lemma split_from_word_first word s :
  word <> [] -> exists w ws, Task_2.split_from word s = w :: ws.
Proof.
  revert word. induction s as [|c s IH]; intros word N; simpl.
  - destruct word; [congruence|eauto].
  - destruct (Task_2.isspace c).
    + destruct word; [congruence|eauto].
    + apply IH. now destruct word.
Qed.

Lemma split_nil_iff s :
  Task_2.split s = [] <-> forallb Task_2.isspace s = true.
Proof.
  unfold Task_2.split. induction s as [|c s IH]; simpl; [tauto|].
  destruct (Task_2.isspace c) eqn:E; simpl; [exact IH|].
  split; [|discriminate].
  destruct (@split_from_word_first [c] s ltac:(discriminate))
    as (w & ws & ->).
  discriminate.
Qed.

Lemma split_from_app word w rest :
  existsb Task_2.isspace w = false ->
  Task_2.split_from word (w ++ rest) = Task_2.split_from (word ++ w) rest.
Proof.
  revert word. induction w as [|c w IH]; intros word H; simpl.
  - now rewrite app_nil_r.
  - simpl in H. apply orb_false_iff in H. destruct H as [Hc Hw].
    rewrite Hc, (IH _ Hw), <- app_assoc. reflexivity.
Qed.

Lemma is_word_facts w :
  is_word w = true -> w <> [] /\ existsb Task_2.isspace w = false.
Proof.
  unfold is_word. destruct w; [discriminate|].
  intros H. split; [discriminate|]. now apply negb_true_iff.
Qed.

Lemma split_join_words (ws : list str) :
  forallb is_word ws = true ->
  Task_2.split (join (cps " ") ws) = ws.
Proof.
  unfold Task_2.split.
  induction ws as [|w ws IH]; intros H; [reflexivity|].
  simpl in H. apply andb_true_iff in H. destruct H as [Hw Hws].
  destruct (is_word_facts _ Hw) as [N S].
  cbn [join]. destruct ws as [|w' ws].
  - rewrite <- (app_nil_r w) at 1. rewrite (@split_from_app [] w [] S).
    simpl. destruct w; [congruence|reflexivity].
  - rewrite (@split_from_app [] w _ S). simpl app.
    cbn [Task_2.split_from].
    change (Task_2.isspace 32%N) with true. cbv iota.
    destruct w; [congruence|]. f_equal. now apply IH.
Qed.

(** X23. [parse_input] raises [IndexError] exactly on a line that is
    empty or made of white space only; nothing catches it, so such a
    line ends the program of Task_2.py. *)
Theorem parse_input_fails_on_blank_line (lower : str -> str) (s : str) :
  Task_2.parse_input lower s = Fail IndexError
  <-> forallb Task_2.isspace s = true.
Proof.
  unfold Task_2.parse_input. rewrite <- split_nil_iff.
  destruct (Task_2.split s); split; try reflexivity; discriminate.
Qed.

(** X24. A command and its arguments, each a word without white space,
    written on one line with single blanks between them, are what
    [parse_input] gives back: the arguments as they were written and
    the command in lower case. *)
Theorem parse_input_reads_words
        (lower : str -> str) (command : str) (args : list str) :
  forallb is_word (command :: args) = true ->
  Task_2.parse_input lower (join (cps " ") (command :: args))
  = Done (lower command, args).
Proof.
  intros H. unfold Task_2.parse_input. now rewrite (split_join_words _ H).
Qed.

Lemma parse_input_reads_words_witness :
  Task_2.parse_input (fun s => s)
    (join (cps " ") (cps "add" :: [cps "Alice"; cps "0501234567"]))
  = Done ((fun s => s) (cps "add"), [cps "Alice"; cps "0501234567"]).
Proof.
  apply (@parse_input_reads_words
           (fun s => s) (cps "add") [cps "Alice"; cps "0501234567"]).
  vm_compute. reflexivity.
Defined.

(** ** Adding a contact and looking at it *)




(** ** The two files side by side *)

(** X26. With three arguments, [change_phone] of Task_2.py does to the
    book and answers exactly what [handle_edit_contact_phone] of
    Task_1.py does and answers for the same name and numbers; in
    particular it shares the answers of that handler for an unknown old
    number and for an invalid new one. *)
Theorem change_phone_is_handle_edit
        (library_text : message -> str)
        (unpack_text : nat -> bool -> nat -> str)
        (book : AddressBook) (contact old_phone new_phone : str) :
  Task_2.change_phone library_text unpack_text
                      [contact; old_phone; new_phone] book
  = Task_1.handle_edit_contact_phone library_text book contact
                                     old_phone new_phone.
Proof.
  unfold Task_2.change_phone, Task_2.input_error, Task_2.change_phone_func,
    Task_1.handle_edit_contact_phone.
  destruct (find book contact) as [record|]; [|reflexivity].
  destruct (edit_phone old_phone new_phone record) as [[[]|[m|]] record'];
    reflexivity.
Qed.

(** X27. [add_birthday] of Task_2.py, given a name and a text: for a name
    the book does not have it answers "not found"; for a text that is
    not a valid date it answers with the text of the invalid-date error;
    in both cases the book is what it was, a birthday set before
    included.  For a valid text it sets the birthday of the contact in
    the book and leaves its name and phones alone. *)
Theorem add_birthday_handler_outcomes
        (library_text : message -> str)
        (unpack_text : nat -> bool -> nat -> str)
        (book : AddressBook) (contact s : str) :
  let reply :=
    Task_2.add_birthday library_text unpack_text [contact; s] book in
  match find book contact with
  | None => reply = (Done (cps "Contact " ++ contact ++ cps " not found."),
                     book)
  | Some record =>
      (exists b,
          Birthday_init s = Ok b
          /\ reply
             = (Done (cps "Birthday added for contact " ++ contact
                      ++ cps "."),
                update_record book contact
                  (mkRecord (name record) (phones record) (Some b))))
      \/ ((forall b, Birthday_init s <> Ok b)
          /\ reply = (Done invalid_date_text, book))
  end.
Proof.
  intros reply. subst reply.
  unfold Task_2.add_birthday, Task_2.input_error, Task_2.add_birthday_func.
  destruct (find book contact) as [record|] eqn:F; [|reflexivity].
  destruct (add_birthday_sets_or_keeps_aux record s)
    as [(b & B & ->)|(B & ->)].
  - left. exists b. auto.
  - right. split; [exact B|]. simpl.
    now rewrite (update_record_same _ _ F).
Qed.
